(** * google.adk.runners: the Runner of the Agent Development Kit

    A shallow embedding of [src/google/adk/runners.py] and the properties of
    its turn resolver, execution pipeline, blocking bridge and toolset
    cleanup.

    Python objects become records, [None]-able values become [option],
    [async] generators become the finite script of what they produce
    together with the way they end, and every call into a collaborator
    (session service, plugin manager, artifact service, agent, toolset,
    logger) leaves an [Action] in a trace, so that statements about "what
    happened, and in which order" are statements about that trace. *)

From stdpp Require Import base gmap strings list pretty.
From Stdlib Require Import ZArith.

Open Scope string_scope.
Open Scope list_scope.
Open Scope nat_scope.
Set Warnings "-register-all".

(** ** Python values the runner looks at *)

(** Truthiness of a [str]: [if s:] holds for every non-empty string. *)
Definition str_truthy (s : string) : bool := negb (String.eqb s "").

(** The exceptions the runner raises, catches or lets through.
    [asyncio.TimeoutError] and the ordinary errors derive from [Exception];
    [asyncio.CancelledError], [KeyboardInterrupt] and [SystemExit] derive
    from [BaseException] only. *)
Inductive PyExn : Type :=
  | ValueError (msg : string)
  | AttributeError (msg : string)
  | TimeoutError
  | OtherException (msg : string)
  | CancelledError
  | KeyboardInterrupt.

(** [isinstance(e, Exception)]: what an [except Exception] clause catches. *)
Definition is_Exception (e : PyExn) : bool :=
  match e with
  | ValueError _ | AttributeError _ | TimeoutError | OtherException _ => true
  | CancelledError | KeyboardInterrupt => false
  end.

(** Values of a [dict[str, Any]]. *)
Inductive Any : Type :=
  | AnyNone
  | AnyBool (b : bool)
  | AnyInt (z : Z)
  | AnyStr (s : string).

(** Records of the module logger. *)
Inductive LogRecord : Type :=
  | LogInfo (msg : string)
  | LogWarning (msg : string)
  | LogError (msg : string).

(** ** google.genai.types *)

Record Blob : Type := mkBlob { mime_type : string; data : string }.

Record FunctionCall : Type := mkFunctionCall
  { call_id : string; call_name : string }.

Record FunctionResponse : Type := mkFunctionResponse
  { response_id : string; response_name : string }.

Record Part : Type := mkPart
  { text : option string;
    inline_data : option Blob;
    function_call : option FunctionCall;
    function_response : option FunctionResponse }.

(** [types.Part(text=...)]. *)
Definition text_part (s : string) : Part :=
  {| text := Some s; inline_data := None;
     function_call := None; function_response := None |}.

Record Content : Type := mkContent
  { role : option string; parts : option (list Part) }.

(** [not new_message.parts]: the list is [None] or empty. *)
Definition no_parts (c : Content) : bool :=
  match parts c with
  | None | Some [] => true
  | Some (_ :: _) => false
  end.

(** ** Events and sessions *)

Record EventActions : Type := mkEventActions
  { state_delta : gmap string Any }.

(** [EventActions()]. *)
Definition default_actions : EventActions := {| state_delta := ∅ |}.

Module Event.
Record t : Type := mk
  { id : string;
    invocation_id : string;
    author : string;
    content : option Content;
    actions : EventActions;
    partial : option bool }.

(** [not event.partial]: [partial] is [None] or [False]. *)
Definition finalized (e : t) : bool :=
  match partial e with
  | Some true => false
  | _ => true
  end.

Definition content_parts (e : t) : list Part :=
  match content e with
  | Some c => default [] (parts c)
  | None => []
  end.

Definition get_function_calls (e : t) : list FunctionCall :=
  omap function_call (content_parts e).

Definition get_function_responses (e : t) : list FunctionResponse :=
  omap function_response (content_parts e).
End Event.
Abbreviation Event := Event.t.

Module Session.
Record t : Type := mk
  { app_name : string;
    user_id : string;
    id : string;
    events : list Event }.
End Session.
Abbreviation Session := Session.t.

(** ** The agent tree *)

Inductive CodeExecutor : Type :=
  | NoCodeExecutor
  | BuiltInCodeExecutor
  | CustomCodeExecutor.

(** An entry of [LlmAgent.tools]: a plain callable, a tool object or a toolset.
    Of a callable the runner sees its [__name__] and, for every parameter,
    whether its annotation is [LiveRequestQueue]; of a tool object, the name
    of its class and the parameters of its [func], when it has a callable
    one; a toolset is known by the identity of the object. *)
Inductive ToolUnion : Type :=
  | Callable (__name__ : string) (live_params : list bool)
  | BaseTool (class_name : string) (func : option (list bool))
  | BaseToolset (toolset : nat).

(** What an [LlmAgent] has and other agents lack. *)
Record LlmAgent : Type := mkLlmAgent
  { disallow_transfer_to_parent : bool;
    tools : list ToolUnion;
    canonical_model : string;
    code_executor : CodeExecutor }.

(** A node of the tree: [llm] is [Some _] exactly for instances of
    [LlmAgent]. *)
Inductive BaseAgent : Type :=
  mkAgent (name : string) (llm : option LlmAgent) (sub_agents : list BaseAgent).

Definition name (a : BaseAgent) : string :=
  match a with mkAgent n _ _ => n end.
Definition llm (a : BaseAgent) : option LlmAgent :=
  match a with mkAgent _ k _ => k end.
Definition sub_agents (a : BaseAgent) : list BaseAgent :=
  match a with mkAgent _ _ s => s end.

(** A reference to a node the way Python holds one: the node together with
    the chain of [parent_agent] links above it, nearest parent first. *)
Record AgentRef : Type := mkRef
  { node : BaseAgent; ancestors : list BaseAgent }.

Definition root_ref (root_agent : BaseAgent) : AgentRef :=
  {| node := root_agent; ancestors := [] |}.

Definition parent_agent (r : AgentRef) : option AgentRef :=
  match ancestors r with
  | [] => None
  | p :: rest => Some {| node := p; ancestors := rest |}
  end.

(** Modelled from the spec: [BaseAgent.find_agent] is not under src/. Per
    §4.1 step 1 and §6 it searches the whole tree below (and including) the
    receiver for a node of exactly that name, at arbitrary depth, and is
    absent when there is none. The search is depth first, the receiver
    before its sub-agents, sub-agents in their declared order. *)
Fixpoint find_agent_from (above : list BaseAgent) (a : BaseAgent)
    (nm : string) : option AgentRef :=
  match a with
  | mkAgent n _ subs =>
      if String.eqb n nm then Some {| node := a; ancestors := above |}
      else
        (fix first_of (l : list BaseAgent) : option AgentRef :=
           match l with
           | [] => None
           | s :: rest =>
               match find_agent_from (a :: above) s nm with
               | Some r => Some r
               | None => first_of rest
               end
           end) subs
  end.

Definition find_agent (root_agent : BaseAgent) (nm : string) : option AgentRef :=
  find_agent_from [] root_agent nm.

(** Modelled from the spec: [BaseAgent.find_sub_agent] is not under src/.
    §4.1 step 2b looks the author up "as a sub-agent name" and step 2c then
    walks "through every ancestor to the root"; §8 has the chain root→A→B
    with an event of B resolved to B. So the lookup covers every node
    strictly below the receiver, in the order of [find_agent]. (§6 remarks
    "direct children only, per observed usage": a direct child is the case
    of a chain of one parent.) *)
Fixpoint first_found (above : list BaseAgent) (l : list BaseAgent)
    (nm : string) : option AgentRef :=
  match l with
  | [] => None
  | s :: rest =>
      match find_agent_from above s nm with
      | Some r => Some r
      | None => first_found above rest nm
      end
  end.

Definition find_sub_agent (root_agent : BaseAgent) (nm : string)
    : option AgentRef :=
  first_found [root_agent] (sub_agents root_agent) nm.

(** ** Turn resolution *)

(** A later event answers a function-call event when one of its function
    responses carries the id of one of the calls. *)
Definition answers (later call : Event) : bool :=
  existsb
    (fun c => existsb (fun r => String.eqb (response_id r) (call_id c))
                      (Event.get_function_responses later))
    (Event.get_function_calls call).

Definition is_function_call_event (e : Event) : bool :=
  match Event.get_function_calls e with [] => false | _ :: _ => true end.

(** A function-call event none of the [later] events answers. *)
Definition unanswered (e : Event) (later : list Event) : bool :=
  is_function_call_event e && forallb (fun l => negb (answers l e)) later.

(** Newest first over [older], with the events after the current one in
    [later]. *)
Fixpoint newest_unanswered (older later : list Event) : option Event :=
  match older with
  | [] => None
  | e :: rest =>
      if unanswered e later then Some e
      else newest_unanswered rest (e :: later)
  end.

(** Modelled from the spec: [flows.llm_flows.functions.find_matching_function_call]
    is not under src/. §4.1 step 1: "the most recent function-call event
    that has no matching function-response event later in the sequence".
    (The source's own words on the helper differ: its docstring and the
    comment above the call key it on the last event being a function
    response. [matching_call_of_last_response] below follows those.) *)
Definition find_matching_function_call (events : list Event) : option Event :=
  newest_unanswered (reverse events) [].

(** The [while agent:] walk along [parent_agent]. *)
Fixpoint transfer_walk (agent : BaseAgent) (parents : list BaseAgent) : bool :=
  match llm agent with
  | None => false
  | Some l =>
      if disallow_transfer_to_parent l then false
      else match parents with
           | [] => true
           | p :: rest => transfer_walk p rest
           end
  end.

Definition _is_transferable_across_agent_tree (agent_to_run : AgentRef) : bool :=
  transfer_walk (node agent_to_run) (ancestors agent_to_run).

Definition unknown_agent_warning (event : Event) : LogRecord :=
  LogWarning ("Event from an unknown agent: " +:+ Event.author event
              +:+ ", event id: " +:+ Event.id event).

(** The [for event in filter(..., reversed(session.events))] loop; [events]
    is the filtered, reversed sequence. The result is the warnings logged
    and the agent returned. *)
Fixpoint scan_events (root_agent : BaseAgent) (events : list Event)
    : list LogRecord * AgentRef :=
  match events with
  | [] => ([], root_ref root_agent)
  | event :: rest =>
      if String.eqb (Event.author event) (name root_agent)
      then ([], root_ref root_agent)
      else
        match find_sub_agent root_agent (Event.author event) with
        | None =>
            let '(logs, r) := scan_events root_agent rest in
            (unknown_agent_warning event :: logs, r)
        | Some agent =>
            if _is_transferable_across_agent_tree agent then ([], agent)
            else scan_events root_agent rest
        end
  end.

Definition not_user (e : Event) : bool :=
  negb (String.eqb (Event.author e) "user").

(** The loop of [_find_agent_to_run] on a session: user events are filtered
    out and the rest is visited newest first. *)
Definition scan_session (session : Session) (root_agent : BaseAgent)
    : list LogRecord * option AgentRef :=
  let '(logs, r) :=
    scan_events root_agent
      (filter (fun e => not_user e = true) (reverse (Session.events session))) in
  (logs, Some r).

(** [Runner._find_agent_to_run]. The second component is [None] where the
    Python function returns [None]. *)
Definition _find_agent_to_run (session : Session) (root_agent : BaseAgent)
    : list LogRecord * option AgentRef :=
  match find_matching_function_call (Session.events session) with
  | Some event =>
      if str_truthy (Event.author event)
      then ([], find_agent root_agent (Event.author event))
      else scan_session session root_agent
  | None => scan_session session root_agent
  end.

(** [_find_agent_to_run] from line 473 on, with what the helper answered
    taken as given. *)
Definition find_agent_to_run_given (event : option Event) (session : Session)
    (root_agent : BaseAgent) : list LogRecord * option AgentRef :=
  match event with
  | Some event =>
      if str_truthy (Event.author event)
      then ([], find_agent root_agent (Event.author event))
      else scan_session session root_agent
  | None => scan_session session root_agent
  end.

(** One of the function calls of the event has this id. *)
Definition has_function_call (i : string) (e : Event) : bool :=
  existsb (λ c, String.eqb (call_id c) i) (Event.get_function_calls e).

(** The helper as the source itself describes it. Its body is not under
    src/; the docstring of [_find_agent_to_run] (lines 454-455) names "the
    agent that returned a function call and the last user message is a
    function response to this function call", and the comment above the
    call (lines 468-471) says "If the last event is a function response,
    should send this response to the agent that returned the corresponding
    function call regardless the type of the agent". So: the helper answers
    only when the last event of the session carries a function response,
    and then with the most recent earlier event that holds a function call
    of that response's id. *)
Definition matching_call_of_last_response (events : list Event) : option Event :=
  match reverse events with
  | [] => None
  | last_event :: earlier =>
      match Event.get_function_responses last_event with
      | [] => None
      | response :: _ =>
          List.find (has_function_call (response_id response)) earlier
      end
  end.

(** [_find_agent_to_run] over the helper as the source describes it. *)
Definition find_agent_to_run_as_documented (session : Session)
    (root_agent : BaseAgent) : list LogRecord * option AgentRef :=
  find_agent_to_run_given (matching_call_of_last_response (Session.events session))
    session root_agent.

(** ** Run configuration, invocation context, runner *)

Record RunConfig : Type := mkRunConfig
  { support_cfc : bool;
    save_input_blobs_as_artifacts : bool;
    response_modalities : option (list string);
    output_audio_transcription : option unit;
    input_audio_transcription : option unit }.

(** [RunConfig()]. *)
Definition default_run_config : RunConfig :=
  {| support_cfc := false; save_input_blobs_as_artifacts := false;
     response_modalities := None; output_audio_transcription := None;
     input_audio_transcription := None |}.

Inductive LiveRequestQueue : Type := mkLiveRequestQueue.

Record ActiveStreamingTool : Type := mkActiveStreamingTool
  { stream : LiveRequestQueue }.

(** Modelled from the spec: the class [InvocationContext] is not under
    src/. §3: a per-call aggregate of the session, the resolved agent, the
    run configuration and, for live mode, a table of active streaming
    tools that is created lazily: there is none until a live run assigns
    one. *)
Module Ctx.
Record t : Type := mk
  { invocation_id : string;
    agent : option AgentRef;
    session : Session;
    user_content : option Content;
    live_request_queue : option LiveRequestQueue;
    run_config : RunConfig;
    active_streaming_tools : option (gmap string ActiveStreamingTool) }.

Definition set_agent (a : option AgentRef) (c : t) : t :=
  mk (invocation_id c) a (session c) (user_content c)
     (live_request_queue c) (run_config c) (active_streaming_tools c).

(** The context shares the session object: after an append the context
    sees the longer sequence. *)
Definition set_session (s : Session) (c : t) : t :=
  mk (invocation_id c) (agent c) s (user_content c)
     (live_request_queue c) (run_config c) (active_streaming_tools c).

Definition set_active_streaming_tools
    (m : option (gmap string ActiveStreamingTool)) (c : t) : t :=
  mk (invocation_id c) (agent c) (session c) (user_content c)
     (live_request_queue c) (run_config c) m.
End Ctx.
Abbreviation InvocationContext := Ctx.t.

Inductive BaseArtifactService : Type := InMemoryArtifactService.

(** Modelled from the spec: the session service is not under src/. §6 gives
    [getSession(app, user, sessionId) -> Session|absent], here a lookup in
    the sessions the service holds. *)
Record BaseSessionService : Type := mkSessionService
  { sessions : list Session }.

Definition session_key_is (app user sid : string) (s : Session) : bool :=
  String.eqb (Session.app_name s) app && String.eqb (Session.user_id s) user
  && String.eqb (Session.id s) sid.

Definition lookup_session (svc : BaseSessionService) (app user sid : string)
    : option Session :=
  List.find (session_key_is app user sid) (sessions svc).

Module Runner.
Record t : Type := mk
  { app_name : string;
    agent : BaseAgent;
    artifact_service : option BaseArtifactService;
    session_service : BaseSessionService }.

Definition set_agent (a : BaseAgent) (r : t) : t :=
  mk (app_name r) a (artifact_service r) (session_service r).
End Runner.
Abbreviation Runner := Runner.t.

(** ** Effects: a trace of calls, threaded state, exceptions *)

(** What the runner does to the world, in the order it does it. *)
Inductive Action : Type :=
  | GetSession (app_name user_id session_id : string)
  | AppendEvent (event : Event)
  | SaveArtifact (app_name user_id session_id filename : string) (artifact : Part)
  | OnUserMessage (user_message : option Content)
  | BeforeRun
  | Execute (agent : option AgentRef)
  | OnEvent (event : Event)
  | Yield (event : Event)
  | AfterRun
  | Log (record : LogRecord)
  | DeprecationWarning (msg : string)
  | WaitFor (toolset : nat) (timeout : N).

Inductive Result (A : Type) : Type :=
  | Returned (a : A)
  | Raised (e : PyExn).
Arguments Returned {A} a.
Arguments Raised {A} e.

(** The state threaded through a call: the plugins' own state and the
    supply of fresh identifiers. *)
Record St (P : Type) : Type := mkSt { plugins : P; uuids : nat }.
Arguments mkSt {P} plugins uuids.
Arguments plugins {P} s.
Arguments uuids {P} s.

Definition M (P A : Type) : Type := St P → Result A * St P * list Action.

#[export] Instance M_ret {P} : MRet (M P) := λ A a s, (Returned a, s, []).

#[export] Instance M_bind {P} : MBind (M P) := λ A B f m s,
  match m s with
  | (Returned a, s', t) => let '(r, s'', t') := f a s' in (r, s'', t ++ t')
  | (Raised e, s', t) => (Raised e, s', t)
  end.

Definition raise {P A} (e : PyExn) : M P A := λ s, (Raised e, s, []).

Definition emit {P} (a : Action) : M P unit := λ s, (Returned tt, s, [a]).

(** [try: m  except <the classes h accepts>: h e]. *)
Definition try_except {P A} (m : M P A) (h : PyExn → option (M P A)) : M P A :=
  λ s,
    match m s with
    | (Returned a, s', t) => (Returned a, s', t)
    | (Raised e, s', t) =>
        match h e with
        | Some k => let '(r, s'', t') := k s' in (r, s'', t ++ t')
        | None => (Raised e, s', t)
        end
    end.

Definition result_of {P A} (x : Result A * St P * list Action) : Result A := x.1.1.
Definition state_of {P A} (x : Result A * St P * list Action) : St P := x.1.2.
Definition trace_of {P A} (x : Result A * St P * list Action) : list Action := x.2.

(** A fresh identifier, as [uuid.uuid4()] gives one. *)
Definition new_uuid {P} : M P string :=
  λ s, (Returned (pretty (uuids s)), mkSt (plugins s) (S (uuids s)), []).

(** [new_invocation_context_id()]. *)
Definition new_invocation_context_id {P} : M P string :=
  u ← new_uuid; mret ("e-" +:+ u).

(** [Event(invocation_id=..., author=..., content=..., actions=...)]: the
    event takes a fresh id and is not partial. *)
Definition new_event {P} (invocation_id author : string) (content : Content)
    (actions : EventActions) : M P Event :=
  u ← new_uuid;
  mret (Event.mk u invocation_id author (Some content) actions None).

(** Modelled from the spec: [session_service.append_event] is not under
    src/. §3 and §6: the event is added at the end of the session's
    append-only sequence. *)
Definition appended (session : Session) (new_events : list Event) : Session :=
  Session.mk (Session.app_name session) (Session.user_id session)
    (Session.id session) (Session.events session ++ new_events).

Definition append_event {P} (session : Session) (event : Event) : M P Session :=
  emit (AppendEvent event);;
  mret (appended session [event]).

Definition get_session {P} (svc : BaseSessionService) (app user sid : string)
    : M P (option Session) :=
  emit (GetSession app user sid);;
  mret (lookup_session svc app user sid).

(** The events a trace yields to the caller, appends to the session, and
    the hooks and calls it contains. *)
Definition yields (t : list Action) : list Event :=
  omap (λ a, match a with Yield e => Some e | _ => None end) t.
Definition appends (t : list Action) : list Event :=
  omap (λ a, match a with AppendEvent e => Some e | _ => None end) t.
Definition hooked (t : list Action) : list Event :=
  omap (λ a, match a with OnEvent e => Some e | _ => None end) t.
Definition is_execute (a : Action) : bool :=
  match a with Execute _ => true | _ => false end.
Definition is_after_run (a : Action) : bool :=
  match a with AfterRun => true | _ => false end.
Definition is_get_session (a : Action) : bool :=
  match a with GetSession _ _ _ => true | _ => false end.
Definition count (p : Action → bool) (t : list Action) : nat :=
  length (List.filter p t).

(** ** Collaborators *)

(** What [plugin_manager.run_before_run_callback] hands back, as far as
    [isinstance(_, types.Content)] tells the cases apart. *)
Inductive PyObject : Type :=
  | ObjNone
  | ObjContent (c : Content)
  | ObjOther.

(** Modelled from the spec: the plugin manager is not under src/. §6: the
    four hooks; §4.2: they may have side effects of their own (the state
    [P]) and reach the pipeline through their return values only. *)
Record PluginManager (P : Type) : Type := mkPluginManager
  { on_user_message : InvocationContext → option Content → P → option Content * P;
    before_run : InvocationContext → P → PyObject * P;
    on_event : InvocationContext → Event → P → option Event * P;
    after_run : InvocationContext → P → P }.
Arguments on_user_message {P} p.
Arguments before_run {P} p.
Arguments on_event {P} p.
Arguments after_run {P} p.

(** What an asynchronous generator of events does when it is consumed to
    its end: the events it produces, then a normal end or an exception. *)
Record AgentRun : Type := mkAgentRun
  { produced : list Event; raises : option PyExn }.

(** How [toolset.close()] behaves, with the time it takes. *)
Inductive CloseBehaviour : Type :=
  | Closes (after : N)
  | Fails (after : N) (e : PyExn)
  | Hangs.

(** The objects the runner calls into, and the order in which Python
    iterates over a set of toolsets: some order of its elements. *)
Record Collaborators (P : Type) : Type := mkCollaborators
  { plugin_manager : PluginManager P;
    agent_run_async : AgentRef → InvocationContext → AgentRun;
    agent_run_live : AgentRef → InvocationContext → AgentRun;
    toolset_type_name : nat → string;
    toolset_close : nat → CloseBehaviour;
    set_iter : gset nat → list nat }.
Arguments plugin_manager {P} c.
Arguments agent_run_async {P} c.
Arguments agent_run_live {P} c.
Arguments toolset_type_name {P} c.
Arguments toolset_close {P} c.
Arguments set_iter {P} c.

(** ** The runner *)

Definition emit_all {P} (l : list Action) : M P unit := λ s, (Returned tt, s, l).

(** [for x in l: body(x)]. *)
Fixpoint for_in {P A} (l : list A) (body : A → M P unit) : M P unit :=
  match l with
  | [] => mret tt
  | x :: rest => body x;; for_in rest body
  end.

Definition set_code_executor (c : CodeExecutor) (a : BaseAgent) : BaseAgent :=
  match a with
  | mkAgent n (Some l) subs =>
      mkAgent n
        (Some (mkLlmAgent (disallow_transfer_to_parent l) (tools l)
                 (canonical_model l) c)) subs
  | mkAgent n None subs => a
  end.

Definition set_response_modalities (v : option (list string)) (c : RunConfig)
    : RunConfig :=
  mkRunConfig (support_cfc c) (save_input_blobs_as_artifacts c) v
    (output_audio_transcription c) (input_audio_transcription c).
Definition set_output_audio_transcription (v : option unit) (c : RunConfig)
    : RunConfig :=
  mkRunConfig (support_cfc c) (save_input_blobs_as_artifacts c)
    (response_modalities c) v (input_audio_transcription c).
Definition set_input_audio_transcription (v : option unit) (c : RunConfig)
    : RunConfig :=
  mkRunConfig (support_cfc c) (save_input_blobs_as_artifacts c)
    (response_modalities c) (output_audio_transcription c) v.

(** What [tool.func if hasattr(tool, 'func') else tool] gives when it is
    callable: the parameters of its signature, each as "its annotation is
    [LiveRequestQueue]". *)
Definition callable_to_inspect (tool : ToolUnion) : option (list bool) :=
  match tool with
  | Callable _ params => Some params
  | BaseTool _ func => func
  | BaseToolset _ => None
  end.

(** What Python says of an attribute an object lacks. *)
Definition no_attribute (type_name attribute : string) : PyExn :=
  AttributeError
    ("'" +:+ type_name +:+ "' object has no attribute '" +:+ attribute +:+ "'").

(** [tool.__name__], the key a tool is registered under. A function has
    the attribute. A tool object has a [name] and no [__name__]: the access
    raises. A toolset has none either, and is never asked: it is not
    callable. *)
Definition tool___name__ (tool : ToolUnion) : Result string :=
  match tool with
  | Callable n _ => Returned n
  | BaseTool cls _ => Raised (no_attribute cls "__name__")
  | BaseToolset _ => Raised (no_attribute "BaseToolset" "__name__")
  end.

(** The loop over the parameters of one tool's signature. *)
Fixpoint register_params (tool : ToolUnion) (params : list bool)
    (table : gmap string ActiveStreamingTool)
    : Result (gmap string ActiveStreamingTool) :=
  match params with
  | [] => Returned table
  | annotation_is_queue :: rest =>
      if annotation_is_queue then
        match tool___name__ tool with
        | Returned key =>
            register_params tool rest
              (<[key := mkActiveStreamingTool mkLiveRequestQueue]> table)
        | Raised e => Raised e
        end
      else register_params tool rest table
  end.

(** The loop [for tool in invocation_context.agent.tools]. *)
Fixpoint register_streaming_tools (tool_list : list ToolUnion)
    (table : gmap string ActiveStreamingTool)
    : Result (gmap string ActiveStreamingTool) :=
  match tool_list with
  | [] => Returned table
  | tool :: rest =>
      match callable_to_inspect tool with
      | None => register_streaming_tools rest table
      | Some params =>
          match register_params tool params table with
          | Returned table => register_streaming_tools rest table
          | Raised e => Raised e
          end
      end
  end.

(** [f'artifact_{invocation_id}_{i}']. *)
Definition artifact_file_name (invocation_id : string) (i : nat) : string :=
  "artifact_" +:+ invocation_id +:+ "_" +:+ pretty i.

Definition uploaded_placeholder (file_name : string) : Part :=
  text_part ("Uploaded file: " +:+ file_name +:+ ". It is saved into artifacts").

(** The toolsets among the tools of one agent. *)
Definition own_toolsets (a : BaseAgent) : gset nat :=
  match llm a with
  | Some l =>
      foldr (λ tool_union acc,
               match tool_union with
               | BaseToolset t => {[t]} ∪ acc
               | _ => acc
               end) ∅ (tools l)
  | None => ∅
  end.

(** [Runner._collect_toolset]. *)
Fixpoint _collect_toolset (agent : BaseAgent) : gset nat :=
  match agent with
  | mkAgent _ _ subs =>
      own_toolsets agent ∪
      (fix over (l : list BaseAgent) : gset nat :=
         match l with
         | [] => ∅
         | sub_agent :: rest => _collect_toolset sub_agent ∪ over rest
         end) subs
  end.

(** [str(e)]. *)
Definition exn_str (e : PyExn) : string :=
  match e with
  | ValueError m | AttributeError m | OtherException m => m
  | TimeoutError | CancelledError | KeyboardInterrupt => ""
  end.

(** The timeout of [_cleanup_toolsets], in seconds. *)
Definition close_timeout : N := 10.

(** What awaiting a close under a timeout comes to: the close's own outcome
    when it ends in time, [TimeoutError] when it does not. *)
Definition wait_outcome (b : CloseBehaviour) (timeout : N) : Result unit :=
  match b with
  | Closes t => if (t <? timeout)%N then Returned tt else Raised TimeoutError
  | Fails t e => if (t <? timeout)%N then Raised e else Raised TimeoutError
  | Hangs => Raised TimeoutError
  end.

(** [modified_user_message if modified_user_message is not None else
    new_message]. *)
Definition effective_message (modified_user_message new_message : option Content)
    : option Content :=
  match modified_user_message with
  | Some m => Some m
  | None => new_message
  end.

Section RunnerOps.
Context {P : Type} (env : Collaborators P).

(** *** Calls into the plugin manager *)

Definition run_on_user_message_callback (ctx : InvocationContext)
    (user_message : option Content) : M P (option Content) :=
  λ s, let '(r, p) := on_user_message (plugin_manager env) ctx user_message (plugins s) in
       (Returned r, mkSt p (uuids s), [OnUserMessage user_message]).

Definition run_before_run_callback (ctx : InvocationContext) : M P PyObject :=
  λ s, let '(r, p) := before_run (plugin_manager env) ctx (plugins s) in
       (Returned r, mkSt p (uuids s), [BeforeRun]).

Definition run_on_event_callback (ctx : InvocationContext) (event : Event)
    : M P (option Event) :=
  λ s, let '(r, p) := on_event (plugin_manager env) ctx event (plugins s) in
       (Returned r, mkSt p (uuids s), [OnEvent event]).

Definition run_after_run_callback (ctx : InvocationContext) : M P unit :=
  λ s, (Returned tt, mkSt (after_run (plugin_manager env) ctx (plugins s)) (uuids s),
        [AfterRun]).

(** *** [Runner._new_invocation_context] *)

Definition _new_invocation_context (self : Runner) (session : Session)
    (new_message : option Content)
    (live_request_queue : option LiveRequestQueue) (run_config : RunConfig)
    : M P (Runner * InvocationContext) :=
  invocation_id ← new_invocation_context_id;
  self ←
    (if support_cfc run_config then
       match llm (Runner.agent self) with
       | Some l =>
           let model_name := canonical_model l in
           if negb (String.prefix "gemini-2" model_name) then
             raise (ValueError
                      ("CFC is not supported for model: " +:+ model_name
                       +:+ " in agent: " +:+ name (Runner.agent self)))
           else
             match code_executor l with
             | BuiltInCodeExecutor => mret self
             | _ => mret (Runner.set_agent
                            (set_code_executor BuiltInCodeExecutor (Runner.agent self))
                            self)
             end
       | None => mret self
       end
     else mret self);
  mret (self,
        Ctx.mk invocation_id (Some (root_ref (Runner.agent self))) session
          new_message live_request_queue run_config None).

(** *** [Runner._new_invocation_context_for_live] *)

Definition live_run_config (self : Runner)
    (live_request_queue : option LiveRequestQueue) (run_config : RunConfig)
    : RunConfig :=
  match sub_agents (Runner.agent self), live_request_queue with
  | _ :: _, Some _ =>
      let run_config :=
        match response_modalities run_config with
        | None | Some [] =>
            let run_config := set_response_modalities (Some ["AUDIO"]) run_config in
            match output_audio_transcription run_config with
            | None => set_output_audio_transcription (Some tt) run_config
            | Some _ => run_config
            end
        | Some modalities =>
            if bool_decide ("TEXT" ∈ modalities) then run_config
            else
              match output_audio_transcription run_config with
              | None => set_output_audio_transcription (Some tt) run_config
              | Some _ => run_config
              end
        end in
      match input_audio_transcription run_config with
      | None => set_input_audio_transcription (Some tt) run_config
      | Some _ => run_config
      end
  | _, _ => run_config
  end.

Definition _new_invocation_context_for_live (self : Runner) (session : Session)
    (live_request_queue : option LiveRequestQueue) (run_config : RunConfig)
    : M P (Runner * InvocationContext) :=
  _new_invocation_context self session None live_request_queue
    (live_run_config self live_request_queue run_config).

(** *** [Runner._exec_with_plugin] *)

(** The body of [async for event in execute_fn(invocation_context)], over
    the events the generator produces. *)
Fixpoint pump (ctx : InvocationContext) (events : list Event)
    (session : Session) : M P Session :=
  match events with
  | [] => mret session
  | event :: rest =>
      session ←
        (if Event.finalized event then append_event session event
         else mret session);
      modified_event ←
        run_on_event_callback (Ctx.set_session session ctx) event;
      emit (Yield (default event modified_event));;
      pump ctx rest session
  end.

Definition _exec_with_plugin (invocation_context : InvocationContext)
    (session : Session) (execute_fn : InvocationContext → AgentRun)
    : M P Session :=
  early_exit_result ← run_before_run_callback invocation_context;
  session ←
    match early_exit_result with
    | ObjContent early_exit_result =>
        early_exit_event ←
          new_event (Ctx.invocation_id invocation_context) "model"
            early_exit_result default_actions;
        session ← append_event session early_exit_event;
        emit (Yield early_exit_event);;
        mret session
    | _ =>
        emit (Execute (Ctx.agent invocation_context));;
        let run := execute_fn invocation_context in
        session ← pump invocation_context (produced run) session;
        match raises run with
        | Some e => raise e
        | None => mret session
        end
    end;
  run_after_run_callback (Ctx.set_session session invocation_context);;
  mret session.

(** *** [Runner._append_new_message_to_session] *)

(** The [for i, part in enumerate(new_message.parts)] loop, from index
    [i] on: the parts as they are left in the message. *)
Fixpoint save_blobs (self : Runner) (session : Session)
    (invocation_id : string) (i : nat) (l : list Part) : M P (list Part) :=
  match l with
  | [] => mret []
  | part :: rest =>
      part' ←
        match inline_data part with
        | None => mret part
        | Some _ =>
            let file_name := artifact_file_name invocation_id i in
            emit (SaveArtifact (Runner.app_name self) (Session.user_id session)
                    (Session.id session) file_name part);;
            mret (uploaded_placeholder file_name)
        end;
      rest' ← save_blobs self session invocation_id (S i) rest;
      mret (part' :: rest')
  end.

Definition _append_new_message_to_session (self : Runner) (session : Session)
    (new_message : Content) (invocation_context : InvocationContext)
    (save_input_blobs_as_artifacts : bool)
    (state_delta : option (gmap string Any)) : M P Session :=
  if no_parts new_message then raise (ValueError "No parts in the new_message.")
  else
    new_message ←
      match Runner.artifact_service self, save_input_blobs_as_artifacts with
      | Some _, true =>
          new_parts ←
            save_blobs self session (Ctx.invocation_id invocation_context) 0
              (default [] (parts new_message));
          mret (mkContent (role new_message) (Some new_parts))
      | _, _ => mret new_message
      end;
    event ←
      match state_delta with
      | Some delta =>
          if bool_decide (delta = ∅)
          then new_event (Ctx.invocation_id invocation_context) "user"
                 new_message default_actions
          else new_event (Ctx.invocation_id invocation_context) "user"
                 new_message (mkEventActions delta)
      | None =>
          new_event (Ctx.invocation_id invocation_context) "user"
            new_message default_actions
      end;
    append_event session event.

(** *** Resolution, with the warnings it logs *)

Definition resolve_agent (session : Session) (root_agent : BaseAgent)
    : M P (option AgentRef) :=
  let '(logs, found) := _find_agent_to_run session root_agent in
  emit_all (Log <$> logs);;
  mret found.

(** *** [Runner.run_async] *)

Definition no_agent (method : string) : AgentRun :=
  {| produced := [];
     raises := Some (AttributeError
                       ("'NoneType' object has no attribute '" +:+ method +:+ "'")) |}.

(** The inner [execute]: [ctx.agent.run_async(ctx)]. *)
Definition execute (ctx : InvocationContext) : AgentRun :=
  match Ctx.agent ctx with
  | Some a => agent_run_async env a ctx
  | None => no_agent "run_async"
  end.

Definition run_async (self : Runner) (user_id session_id : string)
    (new_message : option Content) (state_delta : option (gmap string Any))
    (run_config : RunConfig) : M P Session :=
  session ← get_session (Runner.session_service self) (Runner.app_name self)
              user_id session_id;
  match session with
  | None => raise (ValueError ("Session not found: " +:+ session_id))
  | Some session =>
      '(self, invocation_context) ←
        _new_invocation_context self session new_message None run_config;
      let root_agent := Runner.agent self in
      modified_user_message ←
        run_on_user_message_callback invocation_context new_message;
      let new_message := effective_message modified_user_message new_message in
      session ←
        match new_message with
        | Some new_message =>
            _append_new_message_to_session self session new_message
              invocation_context (save_input_blobs_as_artifacts run_config)
              state_delta
        | None => mret session
        end;
      found ← resolve_agent session root_agent;
      let invocation_context :=
        Ctx.set_agent found (Ctx.set_session session invocation_context) in
      _exec_with_plugin invocation_context session execute
  end.

(** *** [Runner.run_live] *)

Definition execute_live (ctx : InvocationContext) : AgentRun :=
  match Ctx.agent ctx with
  | Some a => agent_run_live env a ctx
  | None => no_agent "run_live"
  end.

(** [invocation_context.active_streaming_tools = {}], the test
    [hasattr(invocation_context.agent, 'tools')] and the loop below it:
    the table when the loop ends, or the exception that ends it. *)
Definition streaming_tools_of (agent : option AgentRef)
    : Result (gmap string ActiveStreamingTool) :=
  match agent with
  | Some a =>
      match llm (node a) with
      | Some l => register_streaming_tools (tools l) ∅
      | None => Returned ∅
      end
  | None => Returned ∅
  end.

Definition run_live_in (self : Runner) (session : Session)
    (live_request_queue : option LiveRequestQueue) (run_config : RunConfig)
    : M P Session :=
  '(self, invocation_context) ←
    _new_invocation_context_for_live self session live_request_queue run_config;
  let root_agent := Runner.agent self in
  found ← resolve_agent session root_agent;
  let invocation_context := Ctx.set_agent found invocation_context in
  match streaming_tools_of found with
  | Raised e => raise e
  | Returned table =>
      let invocation_context :=
        Ctx.set_active_streaming_tools (Some table) invocation_context in
      _exec_with_plugin invocation_context session execute_live
  end.

Definition run_live (self : Runner) (user_id session_id : option string)
    (live_request_queue : option LiveRequestQueue) (run_config : RunConfig)
    (session : option Session) : M P Session :=
  match session, user_id, session_id with
  | None, None, _ | None, _, None =>
      raise (ValueError "Either session or user_id and session_id must be provided.")
  | Some session, _, _ =>
      emit (DeprecationWarning
              "The `session` parameter is deprecated. Please use `user_id` and `session_id` instead.");;
      run_live_in self session live_request_queue run_config
  | None, Some user_id, Some session_id =>
      session ← get_session (Runner.session_service self) (Runner.app_name self)
                  user_id session_id;
      match session with
      | None => raise (ValueError ("Session not found: " +:+ session_id))
      | Some session => run_live_in self session live_request_queue run_config
      end
  end.

(** *** [Runner._cleanup_toolsets] and [Runner.close] *)

(** [await asyncio.wait_for(toolset.close(), timeout=...)]. *)
Definition wait_for (toolset : nat) (timeout : N) : M P unit :=
  emit (WaitFor toolset timeout);;
  match wait_outcome (toolset_close env toolset) timeout with
  | Returned _ => mret tt
  | Raised e => raise e
  end.

(** The body of the [for toolset in toolsets_to_close] loop. *)
Definition close_toolset (toolset : nat) : M P unit :=
  let type_name := toolset_type_name env toolset in
  try_except
    (emit (Log (LogInfo ("Closing toolset: " +:+ type_name)));;
     wait_for toolset close_timeout;;
     emit (Log (LogInfo ("Successfully closed toolset: " +:+ type_name))))
    (λ e,
       match e with
       | TimeoutError =>
           Some (emit (Log (LogWarning
                              ("Toolset " +:+ type_name +:+ " cleanup timed out"))))
       | _ =>
           if is_Exception e
           then Some (emit (Log (LogError
                                   ("Error closing toolset " +:+ type_name
                                    +:+ ": " +:+ exn_str e))))
           else None
       end).

Definition _cleanup_toolsets (toolsets_to_close : gset nat) : M P unit :=
  if bool_decide (toolsets_to_close = ∅) then mret tt
  else for_in (set_iter env toolsets_to_close) close_toolset.

Definition close (self : Runner) : M P unit :=
  _cleanup_toolsets (_collect_toolset (Runner.agent self)).
End RunnerOps.

(** ** [Runner.run]: worker thread, queue and consumer *)

(** Where the worker thread stands: inside the [async for] of
    [_invoke_run_async] with the events [run_async] has still to produce
    and the way it will end, in the [finally] of [_invoke_run_async], in
    the [finally] of [_asyncio_thread_main], or gone, with the exception it
    died of if any. *)
Inductive Worker : Type :=
  | Iterating (pending : list Event) (ending : option PyExn)
  | InnerFinally (ending : option PyExn)
  | OuterFinally (ending : option PyExn)
  | Exited (ending : option PyExn).

(** Where the calling thread stands: in the [while True] loop, at
    [thread.join()], or returned. *)
Inductive Consumer : Type :=
  | Reading
  | Joining
  | Finished.

Record Bridge : Type := mkBridge
  { worker : Worker;
    event_queue : list (option Event);
    consumer : Consumer;
    reyielded : list Event }.

(** One step of the worker: an [event_queue.put]. *)
Definition worker_step (b : Bridge) : option Bridge :=
  match worker b with
  | Iterating (event :: rest) ending =>
      Some (mkBridge (Iterating rest ending) (event_queue b ++ [Some event])
              (consumer b) (reyielded b))
  | Iterating [] ending =>
      Some (mkBridge (InnerFinally ending) (event_queue b) (consumer b) (reyielded b))
  | InnerFinally ending =>
      Some (mkBridge (OuterFinally ending) (event_queue b ++ [None])
              (consumer b) (reyielded b))
  | OuterFinally ending =>
      Some (mkBridge (Exited ending) (event_queue b ++ [None])
              (consumer b) (reyielded b))
  | Exited _ => None
  end.

(** One step of the consumer: [event_queue.get()], which blocks on an empty
    queue, then [yield] or [break]; or [thread.join()], which blocks until
    the worker is gone. *)
Definition consumer_step (b : Bridge) : option Bridge :=
  match consumer b with
  | Reading =>
      match event_queue b with
      | [] => None
      | Some event :: q =>
          Some (mkBridge (worker b) q Reading (reyielded b ++ [event]))
      | None :: q => Some (mkBridge (worker b) q Joining (reyielded b))
      end
  | Joining =>
      match worker b with
      | Exited _ => Some (mkBridge (worker b) (event_queue b) Finished (reyielded b))
      | _ => None
      end
  | Finished => None
  end.

(** Any interleaving of the two threads. *)
Inductive bridge_step (b b' : Bridge) : Prop :=
  | step_worker : worker_step b = Some b' → bridge_step b b'
  | step_consumer : consumer_step b = Some b' → bridge_step b b'.

(** The state right after [thread.start()]. *)
Definition bridge_start (events : list Event) (ending : option PyExn) : Bridge :=
  mkBridge (Iterating events ending) [] Reading [].

(** What is left for the two threads to do. *)
Definition worker_fuel (w : Worker) : nat :=
  match w with
  | Iterating pending _ => length pending + 3
  | InnerFinally _ => 2
  | OuterFinally _ => 1
  | Exited _ => 0
  end.
Definition consumer_fuel (c : Consumer) : nat :=
  match c with Reading => 2 | Joining => 1 | Finished => 0 end.
Definition bridge_fuel (b : Bridge) : nat :=
  2 * worker_fuel (worker b) + length (event_queue b) + consumer_fuel (consumer b).

(** A scheduler: at each tick the worker runs if [true] is drawn and it can
    move, the consumer otherwise, if it can. *)
Fixpoint schedule (ticks : list bool) (b : Bridge) : Bridge :=
  match ticks with
  | [] => b
  | pick_worker :: rest =>
      let first := if pick_worker then worker_step b else consumer_step b in
      let second := if pick_worker then consumer_step b else worker_step b in
      match first, second with
      | Some b', _ => schedule rest b'
      | None, Some b' => schedule rest b'
      | None, None => b
      end
  end.

Section Run.
Context {P : Type} (env : Collaborators P).

(** What the worker will push, in order, and how [run_async] ends in it. *)
Definition run_async_outcome (self : Runner) (user_id session_id : string)
    (new_message : option Content) (run_config : RunConfig) (s : St P)
    : list Event * option PyExn :=
  let out := run_async env self user_id session_id new_message None run_config s in
  (yields (trace_of out),
   match result_of out with Raised e => Some e | Returned _ => None end).

(** [Runner.run], at the moment the worker thread has been started. *)
Definition run (self : Runner) (user_id session_id : string)
    (new_message : option Content) (run_config : RunConfig) (s : St P) : Bridge :=
  let '(events, ending) :=
    run_async_outcome self user_id session_id new_message run_config s in
  bridge_start events ending.
End Run.

(** ** Vocabulary of the statements *)

(** [descends a above r]: [r] refers to [a] or to a node below it, and its
    chain of parents is the real one, ending in [above]. *)
Inductive descends : BaseAgent → list BaseAgent → AgentRef → Prop :=
  | descends_here a above : descends a above {| node := a; ancestors := above |}
  | descends_below a above s r :
      s ∈ sub_agents a → descends s (a :: above) r → descends a above r.

(** [r] is a node of the tree under [root_agent], held with its parents. *)
Definition in_tree (root_agent : BaseAgent) (r : AgentRef) : Prop :=
  descends root_agent [] r.

(** A node of the LLM-capable variant whose transfer-disallow flag is unset. *)
Definition transfer_capable (a : BaseAgent) : Prop :=
  ∃ l, llm a = Some l ∧ disallow_transfer_to_parent l = false.

(** The nodes from the agent up to the root. *)
Definition path_to_root (r : AgentRef) : list BaseAgent := node r :: ancestors r.

(** ** The pipeline as §4.2 words it *)

(** Phase 2, for one produced event, given what the on-event hook answers:
    "if it is not partial, persist it to the session before yielding;
    invoke the on-event hook, which may return a replacement event; yield
    the replacement if provided, otherwise the original". *)
Definition spec_event_block (event : Event) (answer : option Event) : list Action :=
  (if Event.finalized event then [AppendEvent event] else [])
  ++ [OnEvent event; Yield (default event answer)].

Section HookAnswers.
Context {P : Type} (env : Collaborators P).

(** What the on-event hook answers for each produced event, in order,
    called as the pipeline calls it: with the session as persisted so far
    and the plugins' state as the earlier calls left it. *)
Fixpoint hook_answers (ctx : InvocationContext) (events : list Event)
    (session : Session) (p : P) : list (option Event) :=
  match events with
  | [] => []
  | event :: rest =>
      let session :=
        if Event.finalized event then appended session [event] else session in
      let '(answer, p) :=
        on_event (plugin_manager env) (Ctx.set_session session ctx) event p in
      answer :: hook_answers ctx rest session p
  end.

(** The plugins' state after those calls. *)
Fixpoint hook_state (ctx : InvocationContext) (events : list Event)
    (session : Session) (p : P) : P :=
  match events with
  | [] => p
  | event :: rest =>
      let session :=
        if Event.finalized event then appended session [event] else session in
      let '(answer, p) :=
        on_event (plugin_manager env) (Ctx.set_session session ctx) event p in
      hook_state ctx rest session p
  end.
End HookAnswers.

(** ** The calls of the public interface and their precondition violations *)

Inductive Call : Type :=
  | CallRunAsync (self : Runner) (user_id session_id : string)
      (new_message : option Content) (state_delta : option (gmap string Any))
      (run_config : RunConfig)
  | CallRunLive (self : Runner) (user_id session_id : option string)
      (live_request_queue : option LiveRequestQueue) (run_config : RunConfig)
      (session : option Session).

(** The parts of a message after the artifact loop: every part with inline
    data has given way to the placeholder of its file. *)
Fixpoint with_placeholders (invocation_id : string) (i : nat) (l : list Part)
    : list Part :=
  match l with
  | [] => []
  | part :: rest =>
      match inline_data part with
      | None => part
      | Some _ => uploaded_placeholder (artifact_file_name invocation_id i)
      end :: with_placeholders invocation_id (S i) rest
  end.

(** The [save_artifact] calls of that loop. *)
Fixpoint artifact_saves (self : Runner) (session : Session)
    (invocation_id : string) (i : nat) (l : list Part) : list Action :=
  match l with
  | [] => []
  | part :: rest =>
      match inline_data part with
      | None => []
      | Some _ =>
          [SaveArtifact (Runner.app_name self) (Session.user_id session)
             (Session.id session) (artifact_file_name invocation_id i) part]
      end ++ artifact_saves self session invocation_id (S i) rest
  end.

(** [EventActions(state_delta=state_delta)] when a delta is given and is not
    empty, [EventActions()] otherwise; for the empty delta the two are the
    same value. *)
Definition user_actions (state_delta : option (gmap string Any)) : EventActions :=
  match state_delta with
  | Some delta => mkEventActions delta
  | None => default_actions
  end.

(** What the user event carries for a message: the message itself, or the
    message with placeholders where artifacts are saved. *)
Definition stored_content (self : Runner) (save_input_blobs_as_artifacts : bool)
    (invocation_id : string) (m : Content) : Content :=
  match Runner.artifact_service self, save_input_blobs_as_artifacts with
  | Some _, true =>
      mkContent (role m)
        (Some (with_placeholders invocation_id 0 (default [] (parts m))))
  | _, _ => m
  end.

Definition stored_saves (self : Runner) (session : Session)
    (save_input_blobs_as_artifacts : bool)
    (invocation_id : string) (m : Content) : list Action :=
  match Runner.artifact_service self, save_input_blobs_as_artifacts with
  | Some _, true => artifact_saves self session invocation_id 0 (default [] (parts m))
  | _, _ => []
  end.

(** The actions a failing precondition may leave behind: the one session
    lookup and the user-message hook. *)
Definition is_precheck (a : Action) : bool :=
  match a with
  | GetSession _ _ _ | OnUserMessage _ => true
  | _ => false
  end.

Section Calls.
Context {P : Type} (env : Collaborators P).

Definition perform (call : Call) : M P Session :=
  match call with
  | CallRunAsync self user_id session_id new_message state_delta run_config =>
      run_async env self user_id session_id new_message state_delta run_config
  | CallRunLive self user_id session_id live_request_queue run_config session =>
      run_live env self user_id session_id live_request_queue run_config session
  end.

(** §7: the precondition violations of a call made in state [s], each
    with the error it is reported as. *)
Inductive violation (s : St P) : Call → PyExn → Prop :=
  | SessionNotFound_async self user_id session_id new_message state_delta run_config :
      lookup_session (Runner.session_service self) (Runner.app_name self)
        user_id session_id = None →
      violation s
        (CallRunAsync self user_id session_id new_message state_delta run_config)
        (ValueError ("Session not found: " +:+ session_id))
  | SessionNotFound_live self user_id session_id live_request_queue run_config :
      lookup_session (Runner.session_service self) (Runner.app_name self)
        user_id session_id = None →
      violation s
        (CallRunLive self (Some user_id) (Some session_id) live_request_queue
           run_config None)
        (ValueError ("Session not found: " +:+ session_id))
  | MissingSessionIdentity self user_id session_id live_request_queue run_config :
      user_id = None ∨ session_id = None →
      violation s
        (CallRunLive self user_id session_id live_request_queue run_config None)
        (ValueError "Either session or user_id and session_id must be provided.")
  | EmptyMessage self user_id session_id new_message state_delta run_config
      session self' ctx s' t answer p' m :
      lookup_session (Runner.session_service self) (Runner.app_name self)
        user_id session_id = Some session →
      _new_invocation_context self session new_message None run_config s
        = (Returned (self', ctx), s', t) →
      on_user_message (plugin_manager env) ctx new_message (plugins s')
        = (answer, p') →
      effective_message answer new_message = Some m →
      no_parts m = true →
      violation s
        (CallRunAsync self user_id session_id new_message state_delta run_config)
        (ValueError "No parts in the new_message.").
End Calls.

(** ** The cleanup as §4.5 words it *)

Definition waits (t : list Action) : list (nat * N) :=
  omap (λ a, match a with WaitFor toolset timeout => Some (toolset, timeout) | _ => None end) t.

Section Reaper.
Context {P : Type} (env : Collaborators P).

(** What is logged once the close of a toolset has been awaited. *)
Definition spec_close_log (toolset : nat) : LogRecord :=
  let type_name := toolset_type_name env toolset in
  match wait_outcome (toolset_close env toolset) close_timeout with
  | Returned _ => LogInfo ("Successfully closed toolset: " +:+ type_name)
  | Raised TimeoutError =>
      LogWarning ("Toolset " +:+ type_name +:+ " cleanup timed out")
  | Raised e =>
      LogError ("Error closing toolset " +:+ type_name +:+ ": " +:+ exn_str e)
  end.

(** One toolset: announced, closed under the fixed timeout, and the
    outcome logged. *)
Definition spec_close_block (toolset : nat) : list Action :=
  [Log (LogInfo ("Closing toolset: " +:+ toolset_type_name env toolset));
   WaitFor toolset close_timeout;
   Log (spec_close_log toolset)].

(** The close of the toolset ends, in time, with an exception that is not
    an [Exception]. *)
Definition escapes (toolset : nat) : bool :=
  match wait_outcome (toolset_close env toolset) close_timeout with
  | Returned _ => false
  | Raised e => negb (is_Exception e)
  end.
End Reaper.

(** [toolset] is among the tools of [agent], an [LlmAgent]. *)
Definition has_toolset (agent : BaseAgent) (toolset : nat) : Prop :=
  ∃ l, llm agent = Some l ∧ BaseToolset toolset ∈ tools l.

(** ** The bridge's bookkeeping *)

(** What the worker has still to put on the queue. *)
Definition to_push (w : Worker) : list (option Event) :=
  match w with
  | Iterating pending _ => (Some <$> pending) ++ [None; None]
  | InnerFinally _ => [None; None]
  | OuterFinally _ => [None]
  | Exited _ => []
  end.

(** What the consumer has taken off the queue. *)
Definition taken (b : Bridge) : list (option Event) :=
  (Some <$> reyielded b)
  ++ match consumer b with Reading => [] | Joining | Finished => [None] end.

(** The exception the worker dies of, if any. *)
Definition worker_ending (w : Worker) : option PyExn :=
  match w with
  | Iterating _ ending | InnerFinally ending | OuterFinally ending
  | Exited ending => ending
  end.

(** Nothing is lost, duplicated or reordered between the worker and the
    consumer: what was taken, what waits in the queue and what is still to
    be put make up the events of [run_async] followed by the two
    sentinels; the way [run_async] ended stays with the worker; and the
    consumer returns only after the worker is gone. *)
Definition bridge_inv (events : list Event) (ending : option PyExn)
    (b : Bridge) : Prop :=
  taken b ++ event_queue b ++ to_push (worker b) = (Some <$> events) ++ [None; None]
  ∧ worker_ending (worker b) = ending
  ∧ (consumer b = Finished → worker b = Exited ending).

(** The file names of the artifacts a trace saves. *)
Definition saved_names (t : list Action) : list string :=
  omap (λ a, match a with SaveArtifact _ _ _ filename _ => Some filename | _ => None end) t.

(** ** Sample agents, sessions and collaborators *)

Module Sample.
Definition said (author : string) (ps : list Part) : Event :=
  Event.mk ("ev-" +:+ author) "e-0" author (Some (mkContent None (Some ps)))
    default_actions None.
Definition call_part (i : string) : Part :=
  mkPart None None (Some (mkFunctionCall i "get_credentials")) None.
Definition response_part (i : string) : Part :=
  mkPart None None None (Some (mkFunctionResponse i "get_credentials")).

Definition llm_agent (disallow : bool) (ts : list ToolUnion) : option LlmAgent :=
  Some (mkLlmAgent disallow ts "gemini-2.0-flash" NoCodeExecutor).

(** root → A → B with A disallowing transfer, root → C, and a workflow
    node D that is not an [LlmAgent]. *)
Definition agent_B : BaseAgent := mkAgent "B" (llm_agent false []) [].
Definition agent_A : BaseAgent := mkAgent "A" (llm_agent true []) [agent_B].
Definition agent_C : BaseAgent := mkAgent "C" (llm_agent false []) [].
Definition agent_D : BaseAgent := mkAgent "D" None [].
Definition root : BaseAgent :=
  mkAgent "root" (llm_agent false []) [agent_A; agent_C; agent_D].
Definition ref_C : AgentRef := {| node := agent_C; ancestors := [root] |}.
Definition ref_D : AgentRef := {| node := agent_D; ancestors := [root] |}.

Definition session_of (events : list Event) : Session :=
  Session.mk "app" "alice" "s1" events.

(** C answered, then B (below A, which disallows transfer), then an
    author the tree does not know. *)
Definition chat : Session :=
  session_of [said "user" [text_part "hi"]; said "C" [text_part "hello"];
              said "B" [text_part "welcome"]; said "stranger" [text_part "?"]].

(** D asked for credentials and nobody has answered yet. *)
Definition pending : Session :=
  session_of [said "C" [text_part "hello"]; said "D" [call_part "fc-1"];
              said "user" [text_part "one moment"]].

(** D asked for credentials, C spoke in between, and the user's function
    response is the last event. *)
Definition answered : Session :=
  session_of [said "C" [text_part "hello"]; said "D" [call_part "fc-1"];
              said "C" [text_part "please hold"];
              said "user" [response_part "fc-1"]].

(** Two function calls by an author the tree does not know, the first
    one answered by the user. *)
Definition ghost_pending : Session :=
  session_of [said "ghost" [call_part "fc-1"]; said "ghost" [call_part "fc-2"];
              said "user" [response_part "fc-1"]].

(** Plugins that answer for the agent: before-run returns a fixed content.
    The plugins' state counts the hook calls. *)
Definition maintenance : Content :=
  mkContent (Some "model") (Some [text_part "maintenance"]).
Definition plugins_down : PluginManager nat :=
  {| on_user_message := λ _ _ p, (None, S p);
     before_run := λ _ p, (ObjContent maintenance, S p);
     on_event := λ _ _ p, (None, S p);
     after_run := λ _ p, S p |}.

(** Plugins that let the agent run and replace every partial event. *)
Definition redacted (e : Event) : Event :=
  Event.mk (Event.id e) (Event.invocation_id e) (Event.author e)
    (Some (mkContent None (Some [text_part "..."]))) (Event.actions e)
    (Event.partial e).
Definition plugins_redacting : PluginManager nat :=
  {| on_user_message := λ _ _ p, (None, S p);
     before_run := λ _ p, (ObjNone, S p);
     on_event := λ _ e p,
       (if Event.finalized e then None else Some (redacted e), S p);
     after_run := λ _ p, S p |}.

(** An agent that streams one partial fragment and then the final
    answer, and one that breaks after the fragment. *)
Definition fragment : Event :=
  Event.mk "ev-1" "e-0" "C" (Some (mkContent None (Some [text_part "hel"])))
    default_actions (Some true).
Definition answer : Event :=
  Event.mk "ev-2" "e-0" "C" (Some (mkContent None (Some [text_part "hello"])))
    default_actions None.
Definition streams : AgentRun := {| produced := [fragment; answer]; raises := None |}.
Definition breaks : AgentRun :=
  {| produced := [fragment]; raises := Some (OtherException "model unavailable") |}.

Definition env_of (pm : PluginManager nat) (script : AgentRun)
    (closing : nat → CloseBehaviour) : Collaborators nat :=
  {| plugin_manager := pm;
     agent_run_async := λ _ _, script;
     agent_run_live := λ _ _, script;
     toolset_type_name := λ _, "MCPToolset";
     toolset_close := closing;
     set_iter := elements |}.

Definition ctx0 : InvocationContext :=
  Ctx.mk "e-0" (Some ref_C) chat None None default_run_config None.
Definition st0 : St nat := mkSt 0 7.

Definition runner : Runner :=
  Runner.mk "app" root None (mkSessionService [chat; pending]).
Definition runner_with_artifacts : Runner :=
  Runner.mk "app" root (Some InMemoryArtifactService)
    (mkSessionService [chat; pending]).
Definition next_message : Content :=
  mkContent (Some "user") (Some [text_part "and then?"]).
Definition empty_message : Content := mkContent (Some "user") (Some []).
Definition photo : Part :=
  mkPart None (Some (mkBlob "image/png" "89504e47")) None None.
Definition photo_message : Content := mkContent (Some "user") (Some [photo]).
Definition saving : RunConfig :=
  mkRunConfig false true None None None.

(** Two agents share toolset 1; toolset 2 is cancelled while it closes,
    toolset 3 fails, toolset 4 hangs. *)
Definition tooled : BaseAgent :=
  mkAgent "root" (llm_agent false [BaseToolset 1; BaseToolset 2])
    [mkAgent "left" (llm_agent false [BaseToolset 1; Callable "lookup" [false]]) [];
     mkAgent "right" (llm_agent false [BaseToolset 3; BaseToolset 4]) []].
Definition orderly : BaseAgent :=
  mkAgent "root" (llm_agent false [BaseToolset 1])
    [mkAgent "left" (llm_agent false [BaseToolset 1; Callable "lookup" [false]]) [];
     mkAgent "right" (llm_agent false [BaseToolset 3; BaseToolset 4]) []].
Definition closing (toolset : nat) : CloseBehaviour :=
  match toolset with
  | 2 => Fails 1 CancelledError
  | 3 => Fails 1 (OtherException "connection reset")
  | 4 => Hangs
  | _ => Closes 1
  end.
Definition runner_of (a : BaseAgent) : Runner :=
  Runner.mk "app" a None (mkSessionService []).

(** A root on a model that has no continuous function calling, and a run
    configuration that asks for it. *)
Definition legacy_root : BaseAgent :=
  mkAgent "root" (Some (mkLlmAgent false [] "gemini-1.5-pro" NoCodeExecutor)) [].
Definition legacy_runner : Runner :=
  Runner.mk "app" legacy_root None (mkSessionService [chat; pending]).
Definition with_cfc : RunConfig := mkRunConfig true false None None None.


(** A message with a text, a photo, a text and a second photo. *)
Definition scan_of_receipt : Part :=
  mkPart None (Some (mkBlob "application/pdf" "25504446")) None None.
Definition album : Content :=
  mkContent (Some "user")
    (Some [text_part "see"; photo; text_part "and"; scan_of_receipt]).
End Sample.

(** * Properties *)

(** ** The agent tree *)

Lemma BaseAgent_rect_list (Q : BaseAgent → Prop) :
  (∀ n k subs, Forall Q subs → Q (mkAgent n k subs)) → ∀ a, Q a.
Proof.
  intros step.
  refine (fix go (a : BaseAgent) : Q a :=
            match a with
            | mkAgent n k subs =>
                step n k subs
                  ((fix all (l : list BaseAgent) : Forall Q l :=
                      match l with
                      | [] => List.Forall_nil Q
                      | s :: rest => List.Forall_cons Q s rest (go s) (all rest)
                      end) subs)
            end).
Qed.

Lemma find_agent_from_eq above a nm :
  find_agent_from above a nm =
  if String.eqb (name a) nm then Some {| node := a; ancestors := above |}
  else first_found (a :: above) (sub_agents a) nm.
Proof.
  destruct a as [n k subs]; simpl.
  destruct (String.eqb n nm); [done|].
  generalize (mkAgent n k subs :: above) as up. intros up.
  induction subs as [|s rest IH]; simpl; [done|].
  destruct (find_agent_from up s nm); [done|]. apply IH.
Qed.

Lemma first_found_Some above l nm r :
  first_found above l nm = Some r →
  ∃ s, s ∈ l ∧ find_agent_from above s nm = Some r.
Proof.
  induction l as [|s rest IH]; simpl; [done|].
  destruct (find_agent_from above s nm) as [r'|] eqn:E.
  - intros [= <-]. exists s. split; [left | done].
  - intros [s' [Hin Hs']]%IH. exists s'. split; [by right | done].
Qed.

Lemma first_found_is_Some above l nm s :
  s ∈ l → is_Some (find_agent_from above s nm) →
  is_Some (first_found above l nm).
Proof.
  induction l as [|x rest IH]; simpl; [by intros ?%elem_of_nil|].
  intros Hin Hs. destruct (find_agent_from above x nm) eqn:E; [done|].
  apply elem_of_cons in Hin as [->|Hin]; [rewrite E in Hs; by destruct Hs|].
  by apply IH.
Qed.

(** A lookup only ever finds a real node, with the name asked for. *)
Lemma find_agent_from_sound a : ∀ above nm r,
  find_agent_from above a nm = Some r →
  descends a above r ∧ name (node r) = nm.
Proof.
  induction a as [n k subs IH] using BaseAgent_rect_list.
  intros above nm r. rewrite find_agent_from_eq. simpl.
  destruct (String.eqb n nm) eqn:E.
  - intros [= <-]. split; [constructor|]. by apply String.eqb_eq.
  - intros [s [Hin Hs]]%first_found_Some.
    rewrite Forall_forall in IH.
    destruct (IH s Hin _ _ _ Hs) as [Hd Hn].
    split; [|done]. by eapply descends_below.
Qed.

(** A lookup finds a node whenever one of that name exists. *)
Lemma find_agent_from_complete a above r :
  descends a above r →
  is_Some (find_agent_from above a (name (node r))).
Proof.
  induction 1 as [a above | a above s r Hin Hd IH].
  - rewrite find_agent_from_eq. simpl. by rewrite String.eqb_refl.
  - rewrite find_agent_from_eq.
    destruct (String.eqb (name a) (name (node r))); [done|].
    by eapply first_found_is_Some.
Qed.

Lemma find_agent_sound root_agent nm r :
  find_agent root_agent nm = Some r → in_tree root_agent r ∧ name (node r) = nm.
Proof. apply find_agent_from_sound. Qed.

Lemma find_sub_agent_sound root_agent nm r :
  find_sub_agent root_agent nm = Some r →
  in_tree root_agent r ∧ name (node r) = nm ∧ ancestors r ≠ [].
Proof.
  unfold find_sub_agent.
  intros [s [Hin Hs]]%first_found_Some.
  destruct (find_agent_from_sound _ _ _ _ Hs) as [Hd Hn].
  split; [by eapply descends_below|]. split; [done|].
  clear -Hd. remember [root_agent] as above eqn:Ha.
  assert (above ≠ []) as Hne by (subst; done). clear Ha.
  induction Hd; simpl; [done|]. by apply IHHd.
Qed.

(** The parents of a node of the tree end in the root. *)
Lemma descends_path a above r :
  descends a above r → ∃ below, path_to_root r = below ++ a :: above.
Proof.
  induction 1 as [a above | a above s r Hin Hd [below IH]].
  - by exists [].
  - exists (below ++ [s]). by rewrite IH, <- app_assoc.
Qed.

Lemma in_tree_last root_agent r :
  in_tree root_agent r → last (path_to_root r) = Some root_agent.
Proof.
  intros [below ->]%descends_path. by rewrite last_snoc.
Qed.

(** ** Transferability *)

Lemma transfer_capable_dec agent :
  transfer_capable agent ↔
  match llm agent with
  | Some l => disallow_transfer_to_parent l = false
  | None => False
  end.
Proof.
  unfold transfer_capable. destruct (llm agent) as [l|].
  - split; [by intros [l' [[= <-] ?]] | intros ?; by exists l].
  - split; [by intros [l' [? ?]] | done].
Qed.

Lemma transfer_walk_spec parents : ∀ agent,
  transfer_walk agent parents = true ↔ Forall transfer_capable (agent :: parents).
Proof.
  induction parents as [|p rest IH]; intros agent;
    rewrite Forall_cons, transfer_capable_dec; simpl;
    destruct (llm agent) as [l|]; try (split; [done | tauto]);
    destruct (disallow_transfer_to_parent l); try (split; [done | by intros [? _]]).
  rewrite IH. tauto.
Qed.

Lemma is_transferable_spec r :
  _is_transferable_across_agent_tree r = true ↔
  Forall transfer_capable (path_to_root r).
Proof. apply transfer_walk_spec. Qed.

(** ** Turn resolution *)

(** Once the newest events are known to hold no unanswered call, the search
    goes on below them. *)
Lemma newest_unanswered_skip l : ∀ rest later,
  (∀ pre e post, l = pre ++ e :: post → unanswered e (post ++ later) = false) →
  newest_unanswered (reverse l ++ rest) later = newest_unanswered rest (l ++ later).
Proof.
  induction l as [|x l IH] using rev_ind; intros rest later Hno; [done|].
  rewrite reverse_snoc. simpl.
  pose proof (Hno l x [] eq_refl) as Hx. simpl in Hx. rewrite Hx.
  rewrite IH.
  - by rewrite <- app_assoc.
  - intros pre e post ->.
    replace (post ++ x :: later) with ((post ++ [x]) ++ later)
      by (by rewrite <- app_assoc).
    apply (Hno pre e (post ++ [x])).
    by rewrite <- app_assoc.
Qed.

Lemma find_matching_function_call_newest before call after :
  unanswered call after = true →
  (∀ pre e post, after = pre ++ e :: post → unanswered e post = false) →
  find_matching_function_call (before ++ call :: after) = Some call.
Proof.
  intros Hcall Hnone. unfold find_matching_function_call.
  rewrite reverse_app, reverse_cons, <- app_assoc.
  rewrite newest_unanswered_skip.
  - simpl. by rewrite app_nil_r, Hcall.
  - intros pre e post ->. rewrite app_nil_r. by eapply Hnone.
Qed.

Lemma scan_events_in_tree root_agent events :
  in_tree root_agent (scan_events root_agent events).2.
Proof.
  induction events as [|event rest IH]; simpl; [constructor|].
  destruct (String.eqb _ _); [constructor|].
  destruct (find_sub_agent _ _) as [a|] eqn:E.
  - destruct (_is_transferable_across_agent_tree a); [|done].
    by apply find_sub_agent_sound in E as [? _].
  - by destruct (scan_events root_agent rest).
Qed.

Lemma scan_events_transferable root_agent events :
  (scan_events root_agent events).2 ≠ root_ref root_agent →
  ancestors (scan_events root_agent events).2 ≠ [] ∧
  Forall transfer_capable (path_to_root (scan_events root_agent events).2).
Proof.
  induction events as [|event rest IH]; simpl; [done|].
  destruct (String.eqb _ _); [done|].
  destruct (find_sub_agent _ _) as [a|] eqn:E.
  - destruct (_is_transferable_across_agent_tree a) eqn:T; [|done].
    intros _. simpl. split; [|by apply is_transferable_spec].
    by apply find_sub_agent_sound in E as (_ & _ & ?).
  - by destruct (scan_events root_agent rest).
Qed.

Lemma scan_events_fallback root_agent events :
  (∀ event a, event ∈ events →
     find_sub_agent root_agent (Event.author event) = Some a →
     _is_transferable_across_agent_tree a = false) →
  (scan_events root_agent events).2 = root_ref root_agent.
Proof.
  induction events as [|event rest IH]; simpl; [done|].
  intros Hno. destruct (String.eqb _ _); [done|].
  assert ((scan_events root_agent rest).2 = root_ref root_agent) as Hrest.
  { apply IH. intros e a He. apply Hno. by right. }
  destruct (find_sub_agent _ _) as [a|] eqn:E.
  - rewrite (Hno event a); [done | left | done].
  - by destruct (scan_events root_agent rest).
Qed.

(** Every warning of the scan is about an event whose author is neither
    the root nor any node below it. *)
Lemma scan_events_warnings root_agent events :
  Forall (λ record, ∃ event, event ∈ events ∧
            find_sub_agent root_agent (Event.author event) = None ∧
            record = unknown_agent_warning event)
         (scan_events root_agent events).1.
Proof.
  induction events as [|event rest IH]; simpl; [constructor|].
  destruct (String.eqb _ _); [constructor|].
  destruct (find_sub_agent _ _) as [a|] eqn:E.
  - destruct (_is_transferable_across_agent_tree a); [constructor|].
    eapply Forall_impl; [exact IH|]. intros r (e & ? & ? & ?).
    exists e. split; [by right | done].
  - destruct (scan_events root_agent rest) as [logs r]. simpl in *.
    constructor.
    + exists event. split; [left | done].
    + eapply Forall_impl; [exact IH|]. intros r' (e & ? & ? & ?).
      exists e. split; [by right | done].
Qed.

Lemma scan_session_result session root_agent :
  (scan_session session root_agent).2 =
  Some (scan_events root_agent
          (filter (λ e, not_user e = true) (reverse (Session.events session)))).2.
Proof. unfold scan_session. by destruct (scan_events _ _). Qed.

Lemma find_agent_to_run_scans session root_agent :
  (∀ e, find_matching_function_call (Session.events session) = Some e →
        Event.author e = "") →
  _find_agent_to_run session root_agent = scan_session session root_agent.
Proof.
  intros Hno. unfold _find_agent_to_run.
  destruct (find_matching_function_call _) as [e|]; [|done].
  unfold str_truthy. by rewrite (Hno e).
Qed.

(** What §4.1 step 1 says, on its own reading of the helper: when the
    session holds a function-call event that no later event answers, the
    most recent such event has a non-empty author, and that author is the
    name of a node of the tree, then the resolution over that reading
    returns a node of the tree of that name, logging nothing. *)
Lemma spec_reading_resumes_the_author_of_an_unanswered_call
    (session : Session) (root_agent : BaseAgent)
    (before after : list Event) (call : Event) (target : AgentRef) :
  Session.events session = before ++ call :: after →
  unanswered call after = true →
  (∀ pre e post, after = pre ++ e :: post → unanswered e post = false) →
  Event.author call ≠ "" →
  in_tree root_agent target →
  name (node target) = Event.author call →
  ∃ r, _find_agent_to_run session root_agent = ([], Some r) ∧
       in_tree root_agent r ∧
       name (node r) = Event.author call.
Proof.
  intros Hevents Hcall Hnewest Hauthor Htarget Hname.
  unfold _find_agent_to_run.
  rewrite Hevents, (find_matching_function_call_newest _ _ _ Hcall Hnewest).
  unfold str_truthy.
  apply String.eqb_neq in Hauthor. rewrite Hauthor. simpl.
  destruct (find_agent_from_complete _ _ _ Htarget) as [r Hr].
  rewrite Hname in Hr. fold (find_agent root_agent (Event.author call)) in Hr.
  exists r. rewrite Hr. split; [done|].
  by apply find_agent_sound in Hr as [Hin Hn].
Qed.

(** Lines 472-474, whatever the helper answered: an event with a non-empty
    author hands the turn to what [find_agent] gives for that author, and
    the scan is not entered. On the spec's reading of the helper this is
    [_find_agent_to_run] itself. *)
Lemma selected_event_resumes_its_author event session root_agent :
  Event.author event ≠ "" →
  find_agent_to_run_given (Some event) session root_agent
  = ([], find_agent root_agent (Event.author event)).
Proof.
  intros Hauthor. unfold find_agent_to_run_given, str_truthy.
  apply String.eqb_neq in Hauthor. by rewrite Hauthor.
Qed.

Lemma find_agent_to_run_on_the_spec_reading session root_agent :
  _find_agent_to_run session root_agent =
  find_agent_to_run_given (find_matching_function_call (Session.events session))
    session root_agent.
Proof. reflexivity. Qed.

Lemma find_first_match {A} (p : A → bool) (l1 : list A) (x : A) (l2 : list A) :
  (∀ y, y ∈ l1 → p y = false) → p x = true →
  List.find p (l1 ++ x :: l2) = Some x.
Proof.
  intros Hnone Hx. induction l1 as [|y l1 IH]; simpl.
  - by rewrite Hx.
  - rewrite (Hnone y) by left. apply IH. intros z Hz. apply Hnone. by right.
Qed.

Lemma matching_call_of_last_response_found before call between last_event
    response others :
  Event.get_function_responses last_event = response :: others →
  has_function_call (response_id response) call = true →
  (∀ e, e ∈ between → has_function_call (response_id response) e = false) →
  matching_call_of_last_response (before ++ call :: between ++ [last_event])
  = Some call.
Proof.
  intros Hresponse Hcall Hbetween. unfold matching_call_of_last_response.
  replace (before ++ call :: between ++ [last_event])
    with ((before ++ call :: between) ++ [last_event])
    by (by rewrite <- app_assoc).
  rewrite reverse_snoc, Hresponse, reverse_app, reverse_cons, <- app_assoc.
  apply find_first_match; [|done].
  intros e He. apply Hbetween. by apply elem_of_reverse.
Qed.

Lemma matching_call_of_last_response_none older last_event :
  Event.get_function_responses last_event = [] →
  matching_call_of_last_response (older ++ [last_event]) = None.
Proof.
  intros Hnone. unfold matching_call_of_last_response.
  by rewrite reverse_snoc, Hnone.
Qed.

(** C4, as amended. The function-call rule is keyed on the last event of
    the session.  When the last event carries a function response, the
    most recent earlier event with a function call of that response's id
    has a non-empty author, and that author is the name of a node of the
    tree, then the resolution returns a node of the tree of that name (the
    node itself when no other carries the name), logging nothing, whatever
    the node's variant and transfer flag and whatever else the history
    holds.  When the last event carries no function response, or the
    session is empty, the rule selects nothing, whatever function calls
    are still unanswered: the resolution is that of the newest-to-oldest
    scan. *)
Theorem answered_call_resumes_its_author
    (session : Session) (root_agent : BaseAgent) :
  (∀ (before between : list Event) (call last_event : Event)
     (response : FunctionResponse) (others : list FunctionResponse)
     (target : AgentRef),
     Session.events session = before ++ call :: between ++ [last_event] →
     Event.get_function_responses last_event = response :: others →
     has_function_call (response_id response) call = true →
     (∀ e, e ∈ between → has_function_call (response_id response) e = false) →
     Event.author call ≠ "" →
     in_tree root_agent target →
     name (node target) = Event.author call →
     ∃ r, find_agent_to_run_as_documented session root_agent = ([], Some r) ∧
          in_tree root_agent r ∧
          name (node r) = Event.author call ∧
          ((∀ r', in_tree root_agent r' → name (node r') = Event.author call →
                  r' = target) → r = target)) ∧
  (∀ (older : list Event) (last_event : Event),
     Session.events session = older ++ [last_event] →
     Event.get_function_responses last_event = [] →
     find_agent_to_run_as_documented session root_agent
     = scan_session session root_agent) ∧
  (Session.events session = [] →
   find_agent_to_run_as_documented session root_agent
   = scan_session session root_agent).
Proof.
  unfold find_agent_to_run_as_documented. split; [|split].
  - intros before between call last_event response others target
      Hevents Hresponse Hcall Hbetween Hauthor Htarget Hname.
    rewrite Hevents,
      (matching_call_of_last_response_found _ _ _ _ _ _ Hresponse Hcall Hbetween),
      (selected_event_resumes_its_author _ _ _ Hauthor).
    destruct (find_agent_from_complete _ _ _ Htarget) as [r Hr].
    rewrite Hname in Hr. fold (find_agent root_agent (Event.author call)) in Hr.
    exists r. rewrite Hr. split; [done|].
    apply find_agent_sound in Hr as [Hin Hn].
    split; [done|]. split; [done|]. intros Hunique. by apply Hunique.
  - intros older last_event Hevents Hnone.
    by rewrite Hevents, (matching_call_of_last_response_none _ _ Hnone).
  - by intros ->.
Qed.

Lemma answered_call_resumes_its_author_witness :
  ∃ r, find_agent_to_run_as_documented Sample.answered Sample.root = ([], Some r) ∧
       in_tree Sample.root r ∧
       name (node r) = "D" ∧
       llm (node r) = None ∧
       ((∀ r', in_tree Sample.root r' → name (node r') = "D" →
               r' = Sample.ref_D) → r = Sample.ref_D).
Proof.
  destruct (answered_call_resumes_its_author Sample.answered Sample.root)
    as [Hrule _].
  destruct (Hrule [Sample.said "C" [text_part "hello"]]
              [Sample.said "C" [text_part "please hold"]]
              (Sample.said "D" [Sample.call_part "fc-1"])
              (Sample.said "user" [Sample.response_part "fc-1"])
              (mkFunctionResponse "fc-1" "get_credentials") [] Sample.ref_D)
    as (r & Hr & Hin & Hn & Hu).
  - reflexivity.
  - reflexivity.
  - reflexivity.
  - intros e [->|[]%elem_of_nil]%elem_of_cons. reflexivity.
  - discriminate.
  - apply (descends_below _ _ Sample.agent_D); [|constructor].
    right; right; left.
  - reflexivity.
  - exists r. split; [exact Hr|]. split; [exact Hin|]. split; [exact Hn|].
    split; [|exact Hu].
    assert (find_agent_to_run_as_documented Sample.answered Sample.root
            = ([], Some Sample.ref_D)) as Hd by reflexivity.
    rewrite Hd in Hr. by injection Hr as <-.
Defined.

(** C4 as stated fails where the call is not answered by the last event.
    In [Sample.pending] the function call of D is answered by no later
    event, it is the most recent such event, and D is a node of the tree;
    the last event carries no function response, so the rule selects
    nothing and the scan gives the turn to C, which spoke before D: D, not
    an [LlmAgent], does not pass the transfer check. *)
Lemma unanswered_call_without_response_is_not_resumed :
  Session.events Sample.pending =
    [Sample.said "C" [text_part "hello"]] ++
    Sample.said "D" [Sample.call_part "fc-1"] ::
    [Sample.said "user" [text_part "one moment"]] ∧
  unanswered (Sample.said "D" [Sample.call_part "fc-1"])
    [Sample.said "user" [text_part "one moment"]] = true ∧
  is_function_call_event (Sample.said "user" [text_part "one moment"]) = false ∧
  find_agent Sample.root (Event.author (Sample.said "D" [Sample.call_part "fc-1"]))
    = Some Sample.ref_D ∧
  find_agent_to_run_as_documented Sample.pending Sample.root
    = ([], Some Sample.ref_C) ∧
  Sample.ref_C ≠ Sample.ref_D.
Proof. repeat split. discriminate. Qed.

(** C5. When the function-call rule does not select an agent, the agent
    [_find_agent_to_run] returns is a node of the tree; it is a node other
    than the root only if every node from it up to the root is an
    [LlmAgent] with [disallow_transfer_to_parent] unset; when the newest
    event names a sub-agent that fails this check the result is that of the
    scan of the older events; when no event names a sub-agent that passes
    it, and so for an empty history, the result is the root. *)
Theorem scan_returns_root_or_transferable_agent
    (session : Session) (root_agent : BaseAgent) :
  (∀ e, find_matching_function_call (Session.events session) = Some e →
        Event.author e = "") →
  ∃ r, (_find_agent_to_run session root_agent).2 = Some r ∧
       in_tree root_agent r ∧
       (r ≠ root_ref root_agent →
          ancestors r ≠ [] ∧
          last (path_to_root r) = Some root_agent ∧
          Forall transfer_capable (path_to_root r)) ∧
       (∀ older event a,
          Session.events session = older ++ [event] →
          not_user event = true →
          Event.author event ≠ name root_agent →
          find_sub_agent root_agent (Event.author event) = Some a →
          _is_transferable_across_agent_tree a = false →
          r = (scan_events root_agent
                 (filter (λ e, not_user e = true) (reverse older))).2) ∧
       ((∀ event a,
           event ∈ Session.events session →
           not_user event = true →
           find_sub_agent root_agent (Event.author event) = Some a →
           _is_transferable_across_agent_tree a = false) →
        r = root_ref root_agent) ∧
       (Session.events session = [] → r = root_ref root_agent).
Proof.
  intros Hno.
  rewrite (find_agent_to_run_scans _ _ Hno), scan_session_result.
  eexists. split; [done|].
  split; [apply scan_events_in_tree|].
  split.
  { intros Hne. destruct (scan_events_transferable _ _ Hne) as [Ha Hf].
    split; [done|]. split; [|done].
    apply in_tree_last, scan_events_in_tree. }
  split.
  { intros older event a -> Huser Hroot Hfound Hfails.
    rewrite reverse_snoc, filter_cons_True by done. simpl.
    apply String.eqb_neq in Hroot. by rewrite Hroot, Hfound, Hfails. }
  split.
  { intros Hnone. apply scan_events_fallback.
    intros event a [Hu Hin]%list_elem_of_filter.
    apply Hnone; [by apply elem_of_reverse | done]. }
  by intros ->.
Qed.

Lemma scan_returns_root_or_transferable_agent_witness :
  (∀ e, find_matching_function_call (Session.events Sample.chat) = Some e →
        Event.author e = "") ∧
  (_find_agent_to_run Sample.chat Sample.root).2 = Some Sample.ref_C ∧
  Forall transfer_capable (path_to_root Sample.ref_C).
Proof.
  assert (∀ e, find_matching_function_call (Session.events Sample.chat) = Some e →
               Event.author e = "") as Hno by (intros e; discriminate).
  split; [exact Hno|].
  destruct (scan_returns_root_or_transferable_agent Sample.chat Sample.root Hno)
    as (r & Hr & _ & Hpath & _).
  assert ((_find_agent_to_run Sample.chat Sample.root).2 = Some Sample.ref_C)
    as Hc by reflexivity.
  assert (r = Sample.ref_C) as -> by congruence.
  split; [reflexivity|].
  apply Hpath. discriminate.
Defined.

(** C6, at the failing input. The newest unanswered function call is
    authored by a name the tree does not know: [_find_agent_to_run] returns
    [None] instead of skipping the event. *)
Theorem unknown_author_of_pending_call_returns_None :
  find_agent Sample.root "ghost" = None ∧
  _find_agent_to_run Sample.ghost_pending Sample.root = ([], None).
Proof. split; reflexivity. Qed.

(** The scan itself does what C6 says: it always ends with a node of the
    tree, and every author it cannot place is logged and skipped. *)
Lemma scan_session_never_fails session root_agent :
  ∃ r, (scan_session session root_agent).2 = Some r ∧ in_tree root_agent r ∧
       Forall (λ record, ∃ event, event ∈ Session.events session ∧
                 find_sub_agent root_agent (Event.author event) = None ∧
                 record = unknown_agent_warning event)
              (scan_session session root_agent).1.
Proof.
  pose proof (scan_events_in_tree root_agent
    (filter (λ e, not_user e = true) (reverse (Session.events session)))) as Hin.
  pose proof (scan_events_warnings root_agent
    (filter (λ e, not_user e = true) (reverse (Session.events session)))) as Hw.
  unfold scan_session. destruct (scan_events _ _) as [logs r]. simpl in *.
  exists r. split; [done|]. split; [done|].
  eapply Forall_impl; [exact Hw|]. intros rec (e & He & ? & ?).
  exists e. split; [|done].
  apply list_elem_of_filter in He as [_ He]. by apply elem_of_reverse.
Qed.

(** ** The effect monad *)

Lemma bind_run {P A B} (m : M P A) (f : A → M P B) (s : St P) :
  (m ≫= f) s =
  match m s with
  | (Returned a, s', t) => let '(r, s'', t') := f a s' in (r, s'', t ++ t')
  | (Raised e, s', t) => (Raised e, s', t)
  end.
Proof. reflexivity. Qed.

(** Unfold the binds of a computation applied to a state. *)
Ltac run_monad :=
  repeat first
    [ rewrite bind_run
    | progress cbn [mret M_ret fst snd app plugins uuids]
    | progress cbv beta iota ].

Lemma appended_nil session : appended session [] = session.
Proof. destruct session. unfold appended. simpl. by rewrite app_nil_r. Qed.

Lemma appended_appended session l k :
  appended (appended session l) k = appended session (l ++ k).
Proof. unfold appended. simpl. by rewrite app_assoc. Qed.

Lemma yields_app t u : yields (t ++ u) = yields t ++ yields u.
Proof. apply omap_app. Qed.
Lemma appends_app t u : appends (t ++ u) = appends t ++ appends u.
Proof. apply omap_app. Qed.
Lemma hooked_app t u : hooked (t ++ u) = hooked t ++ hooked u.
Proof. apply omap_app. Qed.
Lemma count_app p t u : count p (t ++ u) = count p t + count p u.
Proof. unfold count. by rewrite List.filter_app, length_app. Qed.

(** ** The execution pipeline *)

Lemma blocks_hooked events : ∀ answers,
  length answers = length events →
  hooked (concat (zip_with spec_event_block events answers)) = events.
Proof.
  induction events as [|e rest IH]; intros [|a answers] Hlen; try done.
  simpl. unfold spec_event_block at 1.
  rewrite !hooked_app, IH by (simpl in Hlen; lia).
  by destruct (Event.finalized e).
Qed.

Lemma blocks_yields events : ∀ answers,
  length answers = length events →
  yields (concat (zip_with spec_event_block events answers)) =
  zip_with (λ event answer, default event answer) events answers.
Proof.
  induction events as [|e rest IH]; intros [|a answers] Hlen; try done.
  simpl. unfold spec_event_block at 1.
  rewrite !yields_app, IH by (simpl in Hlen; lia).
  by destruct (Event.finalized e).
Qed.

Lemma blocks_appends events : ∀ answers,
  length answers = length events →
  appends (concat (zip_with spec_event_block events answers)) =
  List.filter Event.finalized events.
Proof.
  induction events as [|e rest IH]; intros [|a answers] Hlen; try done.
  simpl. unfold spec_event_block at 1.
  rewrite !appends_app, IH by (simpl in Hlen; lia).
  by destruct (Event.finalized e).
Qed.

Lemma blocks_count events : ∀ answers,
  count is_after_run (concat (zip_with spec_event_block events answers)) = 0 ∧
  count is_execute (concat (zip_with spec_event_block events answers)) = 0.
Proof.
  induction events as [|e rest IH]; intros [|a answers]; try done.
  simpl. unfold spec_event_block at 1 3.
  rewrite !count_app. destruct (IH answers) as [-> ->].
  by destruct (Event.finalized e).
Qed.

Section Pipeline.
Context {P : Type} (env : Collaborators P).

Lemma pump_run ctx events : ∀ session s,
  pump env ctx events session s =
  (Returned (appended session (List.filter Event.finalized events)),
   mkSt (hook_state env ctx events session (plugins s)) (uuids s),
   concat (zip_with spec_event_block events
             (hook_answers env ctx events session (plugins s)))).
Proof.
  induction events as [|event rest IH]; intros session [p u]; simpl.
  - by rewrite appended_nil.
  - unfold spec_event_block, run_on_event_callback, append_event, emit.
    destruct (Event.finalized event); run_monad;
      destruct (on_event _ _ event p) as [answer p'] eqn:E; run_monad;
      rewrite IH; simpl; [by rewrite appended_appended | done].
Qed.

Lemma hook_answers_length ctx events : ∀ session p,
  length (hook_answers env ctx events session p) = length events.
Proof.
  induction events as [|e rest IH]; intros session p; simpl; [done|].
  destruct (on_event _ _ e p). simpl. by rewrite IH.
Qed.

(** The early exit, in full. *)
Lemma exec_with_plugin_early ctx session execute_fn (s : St P) c p' :
  before_run (plugin_manager env) ctx (plugins s) = (ObjContent c, p') →
  let event := Event.mk (pretty (uuids s)) (Ctx.invocation_id ctx) "model"
                 (Some c) default_actions None in
  _exec_with_plugin env ctx session execute_fn s =
  (Returned (appended session [event]),
   mkSt (after_run (plugin_manager env)
           (Ctx.set_session (appended session [event]) ctx) p') (S (uuids s)),
   [BeforeRun; AppendEvent event; Yield event; AfterRun]).
Proof.
  intros Hearly event. destruct s as [p u]. simpl in *.
  unfold _exec_with_plugin, run_before_run_callback.
  run_monad. rewrite Hearly. by run_monad.
Qed.

(** The normal path, in full. *)
Lemma exec_with_plugin_normal ctx session execute_fn (s : St P) early p' :
  before_run (plugin_manager env) ctx (plugins s) = (early, p') →
  (∀ c, early ≠ ObjContent c) →
  let run := execute_fn ctx in
  let answers := hook_answers env ctx (produced run) session p' in
  let p'' := hook_state env ctx (produced run) session p' in
  let session' := appended session (List.filter Event.finalized (produced run)) in
  let blocks := concat (zip_with spec_event_block (produced run) answers) in
  _exec_with_plugin env ctx session execute_fn s =
  match raises run with
  | None =>
      (Returned session',
       mkSt (after_run (plugin_manager env) (Ctx.set_session session' ctx) p'')
            (uuids s),
       [BeforeRun; Execute (Ctx.agent ctx)] ++ blocks ++ [AfterRun])
  | Some e =>
      (Raised e, mkSt p'' (uuids s),
       [BeforeRun; Execute (Ctx.agent ctx)] ++ blocks)
  end.
Proof.
  intros Hearly Hnot. destruct s as [p u]. simpl in *.
  unfold _exec_with_plugin, run_before_run_callback, run_after_run_callback, emit, raise.
  run_monad. rewrite Hearly. run_monad.
  destruct early as [|c|]; [|by destruct (Hnot c)|];
    run_monad; rewrite pump_run; run_monad;
    destruct (raises (execute_fn ctx)); run_monad;
    simpl; by rewrite ?app_nil_r.
Qed.

(** C1. When the before-run hook returns a content, the pipeline appends
    to the session exactly one event, authored ["model"], carrying that
    content and not partial, yields exactly that event, and never calls
    [execute_fn]. *)
Theorem before_run_content_short_circuits
    (ctx : InvocationContext) (session : Session)
    (execute_fn : InvocationContext → AgentRun) (s : St P)
    (c : Content) (p' : P) :
  before_run (plugin_manager env) ctx (plugins s) = (ObjContent c, p') →
  let out := _exec_with_plugin env ctx session execute_fn s in
  ∃ event,
    Event.author event = "model" ∧
    Event.content event = Some c ∧
    Event.finalized event = true ∧
    result_of out = Returned (appended session [event]) ∧
    appends (trace_of out) = [event] ∧
    yields (trace_of out) = [event] ∧
    count is_execute (trace_of out) = 0 ∧
    hooked (trace_of out) = [] ∧
    trace_of out = [BeforeRun; AppendEvent event; Yield event; AfterRun].
Proof.
  intros Hearly out. subst out.
  rewrite (exec_with_plugin_early _ _ _ _ _ _ Hearly).
  exists (Event.mk (pretty (uuids s)) (Ctx.invocation_id ctx) "model"
            (Some c) default_actions None).
  by repeat split.
Qed.

(** C2. On the normal path every event [execute_fn] produces goes through
    the on-event hook and is yielded, as the hook's replacement when it
    gives one and as itself otherwise; the events appended to the session
    are exactly the non-partial ones, each appended before its own hook
    call and yield; a partial event is never appended. *)
Theorem normal_execution_persists_finalized_and_yields_all
    (ctx : InvocationContext) (session : Session)
    (execute_fn : InvocationContext → AgentRun) (s : St P)
    (early : PyObject) (p' : P) :
  before_run (plugin_manager env) ctx (plugins s) = (early, p') →
  (∀ c, early ≠ ObjContent c) →
  let run := execute_fn ctx in
  let answers := hook_answers env ctx (produced run) session p' in
  let out := _exec_with_plugin env ctx session execute_fn s in
  length answers = length (produced run) ∧
  trace_of out =
    [BeforeRun; Execute (Ctx.agent ctx)]
    ++ concat (zip_with spec_event_block (produced run) answers)
    ++ match raises run with Some _ => [] | None => [AfterRun] end ∧
  hooked (trace_of out) = produced run ∧
  yields (trace_of out) =
    zip_with (λ event answer, default event answer) (produced run) answers ∧
  appends (trace_of out) = List.filter Event.finalized (produced run) ∧
  (∀ event, event ∈ produced run → Event.finalized event = false →
            event ∉ appends (trace_of out)).
Proof.
  intros Hearly Hnot run answers out. subst out.
  rewrite (exec_with_plugin_normal _ _ _ _ _ _ Hearly Hnot).
  fold run. fold answers.
  assert (length answers = length (produced run)) as Hlen
    by apply hook_answers_length.
  assert (∀ tail,
            (tail = [] ∨ tail = [AfterRun]) →
            let t := [BeforeRun; Execute (Ctx.agent ctx)]
                     ++ concat (zip_with spec_event_block (produced run) answers)
                     ++ tail in
            hooked t = produced run ∧
            yields t = zip_with (λ event answer, default event answer)
                         (produced run) answers ∧
            appends t = List.filter Event.finalized (produced run)) as Hshape.
  { intros tail Htail t. subst t.
    rewrite hooked_app, yields_app, appends_app.
    rewrite hooked_app, yields_app, appends_app.
    rewrite (blocks_hooked _ _ Hlen), (blocks_yields _ _ Hlen),
      (blocks_appends _ _ Hlen).
    destruct Htail as [-> | ->]; simpl; by rewrite !app_nil_r. }
  split; [done|].
  assert (∀ t, appends t = List.filter Event.finalized (produced run) →
               ∀ event, event ∈ produced run → Event.finalized event = false →
                        event ∉ appends t) as Hpartial.
  { intros t -> event _ Hp Hin.
    apply list_elem_of_In, List.filter_In in Hin as [_ Hfin]. congruence. }
  destruct (raises run) as [e|]; unfold trace_of; cbn [snd].
  - destruct (Hshape [] (or_introl eq_refl)) as (Hh & Hy & Ha).
    rewrite app_nil_r in Hh, Hy, Ha. rewrite app_nil_r.
    split; [done|]. split; [done|]. split; [done|]. split; [done|].
    by apply Hpartial.
  - destruct (Hshape [AfterRun] (or_intror eq_refl)) as (Hh & Hy & Ha).
    split; [done|]. split; [done|]. split; [done|]. split; [done|].
    by apply Hpartial.
Qed.

(** C3. By cases on what the before-run hook answers and on how the
    sequence of [execute_fn] ends.  When the hook answers a content the
    invocation returns, [execute_fn] is not called and the after-run hook
    is called exactly once.  Otherwise [execute_fn] is called once; when
    its sequence ends normally the invocation returns and the after-run
    hook is called exactly once; when it raises [e], the invocation raises
    [e] and the after-run hook is not called.  Whenever the after-run hook
    is called, it is the last thing the invocation does. *)
Theorem after_run_once_unless_execution_raises
    (ctx : InvocationContext) (session : Session)
    (execute_fn : InvocationContext → AgentRun) (s : St P)
    (early : PyObject) (p' : P) :
  before_run (plugin_manager env) ctx (plugins s) = (early, p') →
  let out := _exec_with_plugin env ctx session execute_fn s in
  let after_runs := count is_after_run (trace_of out) in
  let executions := count is_execute (trace_of out) in
  match early, raises (execute_fn ctx) with
  | ObjContent _, _ =>
      (∃ session', result_of out = Returned session') ∧
      after_runs = 1 ∧ last (trace_of out) = Some AfterRun ∧ executions = 0
  | _, None =>
      (∃ session', result_of out = Returned session') ∧
      after_runs = 1 ∧ last (trace_of out) = Some AfterRun ∧ executions = 1
  | _, Some e =>
      result_of out = Raised e ∧ after_runs = 0 ∧ executions = 1
  end.
Proof.
  intros Hearly out after_runs executions. subst out after_runs executions.
  assert (∀ events answers tail,
            count is_after_run
              ([BeforeRun; Execute (Ctx.agent ctx)]
               ++ concat (zip_with spec_event_block events answers) ++ tail)
            = count is_after_run tail ∧
            count is_execute
              ([BeforeRun; Execute (Ctx.agent ctx)]
               ++ concat (zip_with spec_event_block events answers) ++ tail)
            = 1 + count is_execute tail) as Hcount.
  { intros events answers tail.
    rewrite !count_app.
    destruct (blocks_count events answers) as [-> ->]. by split. }
  assert ((∀ c, early ≠ ObjContent c) →
            match raises (execute_fn ctx) with
            | None =>
                (∃ session',
                   result_of (_exec_with_plugin env ctx session execute_fn s)
                   = Returned session') ∧
                count is_after_run
                  (trace_of (_exec_with_plugin env ctx session execute_fn s)) = 1 ∧
                last (trace_of (_exec_with_plugin env ctx session execute_fn s))
                = Some AfterRun ∧
                count is_execute
                  (trace_of (_exec_with_plugin env ctx session execute_fn s)) = 1
            | Some e =>
                result_of (_exec_with_plugin env ctx session execute_fn s)
                = Raised e ∧
                count is_after_run
                  (trace_of (_exec_with_plugin env ctx session execute_fn s)) = 0 ∧
                count is_execute
                  (trace_of (_exec_with_plugin env ctx session execute_fn s)) = 1
            end) as Hnormal.
  { intros Hnot.
    rewrite (exec_with_plugin_normal _ _ _ _ _ _ Hearly Hnot).
    destruct (raises (execute_fn ctx)) as [e|];
      unfold result_of, trace_of; cbn [fst snd].
    - destruct (Hcount (produced (execute_fn ctx))
                  (hook_answers env ctx (produced (execute_fn ctx)) session p') [])
        as [Ha Hx].
      rewrite app_nil_r in Ha, Hx. by rewrite Ha, Hx.
    - destruct (Hcount (produced (execute_fn ctx))
                  (hook_answers env ctx (produced (execute_fn ctx)) session p')
                  [AfterRun]) as [Ha Hx].
      rewrite Ha, Hx. split; [by eexists|]. split; [done|]. split; [|done].
      by rewrite !app_assoc, last_snoc. }
  destruct early as [|c|].
  - by apply Hnormal.
  - rewrite (exec_with_plugin_early _ _ _ _ _ _ Hearly).
    split; [by eexists|]. done.
  - by apply Hnormal.
Qed.
End Pipeline.

Lemma before_run_content_short_circuits_witness :
  let env := Sample.env_of Sample.plugins_down Sample.streams (λ _, Closes 1) in
  let out := _exec_with_plugin env Sample.ctx0 Sample.chat (execute env) Sample.st0 in
  before_run (plugin_manager env) Sample.ctx0 (plugins Sample.st0)
    = (ObjContent Sample.maintenance, 1) ∧
  ∃ event,
    Event.author event = "model" ∧
    Event.content event = Some Sample.maintenance ∧
    Event.finalized event = true ∧
    result_of out = Returned (appended Sample.chat [event]) ∧
    appends (trace_of out) = [event] ∧
    yields (trace_of out) = [event] ∧
    count is_execute (trace_of out) = 0 ∧
    hooked (trace_of out) = [] ∧
    trace_of out = [BeforeRun; AppendEvent event; Yield event; AfterRun].
Proof.
  intros env out. split; [reflexivity|].
  apply (before_run_content_short_circuits env Sample.ctx0 Sample.chat
           (execute env) Sample.st0 Sample.maintenance 1).
  reflexivity.
Defined.

Lemma normal_execution_persists_finalized_and_yields_all_witness :
  let env := Sample.env_of Sample.plugins_redacting Sample.streams (λ _, Closes 1) in
  let out := _exec_with_plugin env Sample.ctx0 Sample.chat (execute env) Sample.st0 in
  before_run (plugin_manager env) Sample.ctx0 (plugins Sample.st0) = (ObjNone, 1) ∧
  hooked (trace_of out) = [Sample.fragment; Sample.answer] ∧
  yields (trace_of out) = [Sample.redacted Sample.fragment; Sample.answer] ∧
  appends (trace_of out) = [Sample.answer].
Proof.
  intros env out. split; [reflexivity|].
  destruct (normal_execution_persists_finalized_and_yields_all env Sample.ctx0
              Sample.chat (execute env) Sample.st0 ObjNone 1 eq_refl)
    as (_ & _ & Hh & Hy & Ha & _).
  - intros c. discriminate.
  - split; [exact Hh|]. split; [exact Hy|]. exact Ha.
Defined.

Lemma after_run_once_unless_execution_raises_witness :
  let env := Sample.env_of Sample.plugins_redacting Sample.breaks (λ _, Closes 1) in
  let out := _exec_with_plugin env Sample.ctx0 Sample.chat (execute env) Sample.st0 in
  before_run (plugin_manager env) Sample.ctx0 (plugins Sample.st0) = (ObjNone, 1) ∧
  raises (execute env Sample.ctx0) = Some (OtherException "model unavailable") ∧
  result_of out = Raised (OtherException "model unavailable") ∧
  count is_after_run (trace_of out) = 0 ∧
  count is_execute (trace_of out) = 1.
Proof.
  intros env out. split; [reflexivity|]. split; [reflexivity|].
  exact (after_run_once_unless_execution_raises env Sample.ctx0 Sample.chat
           (execute env) Sample.st0 ObjNone 1 eq_refl).
Defined.

(** ** [run_async] and [run_live] *)

Section CallLemmas.
Context {P : Type} (env : Collaborators P).

Lemma new_invocation_context_run self session new_message queue run_config
    (s : St P) r s' t :
  _new_invocation_context self session new_message queue run_config s = (r, s', t) →
  t = [] ∧ s' = mkSt (plugins s) (S (uuids s)) ∧
  ∀ self' ctx, r = Returned (self', ctx) →
    Runner.app_name self' = Runner.app_name self ∧
    Runner.artifact_service self' = Runner.artifact_service self ∧
    Runner.session_service self' = Runner.session_service self ∧
    ctx = Ctx.mk ("e-" +:+ pretty (uuids s)) (Some (root_ref (Runner.agent self')))
            session new_message queue run_config None.
Proof.
  unfold _new_invocation_context, new_invocation_context_id, new_uuid, raise.
  destruct s as [p u]. run_monad.
  destruct (support_cfc run_config); run_monad.
  - destruct (llm (Runner.agent self)) as [l|]; run_monad.
    + destruct (negb (String.prefix "gemini-2" (canonical_model l))); run_monad.
      * intros [= <- <- <-]. split; [done|]. split; [done|]. by intros ? ? [=].
      * destruct (code_executor l); run_monad; intros [= <- <- <-];
          (split; [done|]); (split; [done|]); by intros ? ? [= <- <-].
    + intros [= <- <- <-]. split; [done|]. split; [done|].
      by intros ? ? [= <- <-].
  - intros [= <- <- <-]. split; [done|]. split; [done|].
    by intros ? ? [= <- <-].
Qed.

Lemma save_blobs_run self session invocation_id l : ∀ i (s : St P),
  save_blobs self session invocation_id i l s =
  (Returned (with_placeholders invocation_id i l), s,
   artifact_saves self session invocation_id i l).
Proof.
  induction l as [|part rest IH]; intros i s; simpl; [done|].
  unfold emit. run_monad.
  destruct (inline_data part); run_monad; rewrite IH; run_monad;
    by rewrite app_nil_r.
Qed.

Lemma append_new_message_run self session m ctx save state_delta (s : St P) :
  no_parts m = false →
  let event := Event.mk (pretty (uuids s)) (Ctx.invocation_id ctx) "user"
                 (Some (stored_content self save (Ctx.invocation_id ctx) m))
                 (user_actions state_delta) None in
  _append_new_message_to_session self session m ctx save state_delta s =
  (Returned (appended session [event]),
   mkSt (plugins s) (S (uuids s)),
   stored_saves self session save (Ctx.invocation_id ctx) m ++ [AppendEvent event]).
Proof.
  intros Hparts event. subst event. destruct s as [p u].
  unfold _append_new_message_to_session, stored_content, stored_saves,
    new_event, new_uuid, append_event, emit.
  rewrite Hparts.
  assert (∀ delta : gmap string Any,
            bool_decide (delta = ∅) = true → mkEventActions delta = default_actions)
    as Hempty by (by intros delta ->%bool_decide_eq_true).
  destruct (Runner.artifact_service self) as [svc|], save; run_monad;
    rewrite ?save_blobs_run; run_monad;
    destruct state_delta as [delta|]; simpl;
    try (destruct (bool_decide (delta = ∅)) eqn:E;
         [rewrite (Hempty _ E)|]);
    run_monad; by rewrite ?app_nil_r.
Qed.
End CallLemmas.

Lemma logs_silent (logs : list LogRecord) :
  yields (Log <$> logs) = [] ∧ appends (Log <$> logs) = [].
Proof. induction logs as [|r rest [IHy IHa]]; by split. Qed.

Lemma artifact_saves_silent self session invocation_id l : ∀ i,
  yields (artifact_saves self session invocation_id i l) = [] ∧
  appends (artifact_saves self session invocation_id i l) = [].
Proof.
  induction l as [|part rest IH]; intros i; simpl; [done|].
  rewrite yields_app, appends_app. destruct (IH (S i)) as [-> ->].
  by destruct (inline_data part).
Qed.

Lemma stored_saves_silent self session save invocation_id m :
  yields (stored_saves self session save invocation_id m) = [] ∧
  appends (stored_saves self session save invocation_id m) = [].
Proof.
  unfold stored_saves.
  destruct (Runner.artifact_service self), save; try done.
  apply artifact_saves_silent.
Qed.

(** Close the facts about a trace that is written out. *)
Ltac fail_fast :=
  unfold result_of, trace_of, count; cbn;
  repeat match goal with |- _ ∧ _ => split end; try reflexivity; lia.

Section Entry.
Context {P : Type} (env : Collaborators P).

(** [run_async] on a call that passes its preconditions. *)
Lemma run_async_run self user_id session_id new_message requested_delta
    run_config (s : St P) session self' ctx s' answer p' m :
  lookup_session (Runner.session_service self) (Runner.app_name self)
    user_id session_id = Some session →
  _new_invocation_context self session new_message None run_config s
    = (Returned (self', ctx), s', []) →
  on_user_message (plugin_manager env) ctx new_message (plugins s') = (answer, p') →
  effective_message answer new_message = Some m →
  no_parts m = false →
  let user_event :=
    Event.mk (pretty (uuids s')) (Ctx.invocation_id ctx) "user"
      (Some (stored_content self' (save_input_blobs_as_artifacts run_config)
               (Ctx.invocation_id ctx) m))
      (user_actions requested_delta) None in
  let session1 := appended session [user_event] in
  let resolved := _find_agent_to_run session1 (Runner.agent self') in
  let pipeline :=
    _exec_with_plugin env
      (Ctx.set_agent resolved.2 (Ctx.set_session session1 ctx))
      session1 (execute env) (mkSt p' (S (uuids s'))) in
  run_async env self user_id session_id new_message requested_delta run_config s =
  (result_of pipeline, state_of pipeline,
   [GetSession (Runner.app_name self) user_id session_id;
    OnUserMessage new_message]
   ++ stored_saves self' session (save_input_blobs_as_artifacts run_config)
        (Ctx.invocation_id ctx) m
   ++ [AppendEvent user_event]
   ++ (Log <$> resolved.1)
   ++ trace_of pipeline).
Proof.
  intros Hsession Hctx Hhook Hmsg Hparts.
  intros user_event session1 resolved pipeline.
  unfold run_async, get_session, emit. run_monad.
  rewrite Hsession. run_monad. rewrite Hctx. run_monad.
  unfold run_on_user_message_callback. rewrite Hhook. run_monad.
  rewrite Hmsg. run_monad.
  rewrite (append_new_message_run self' session m ctx _ requested_delta
             (mkSt p' (uuids s')) Hparts).
  run_monad. fold user_event. fold session1.
  unfold resolve_agent, emit_all. fold resolved.
  destruct resolved as [logs found] eqn:Hres. run_monad.
  subst pipeline. simpl.
  destruct (_exec_with_plugin _ _ _ _ _) as [[r st] t].
  unfold result_of, state_of, trace_of. simpl.
  by rewrite <- !app_assoc.
Qed.

(** C10, as amended. A [run_async] call whose session exists, whose
    context is created and whose message, after the user-message hook, is
    present and has parts appends exactly one event of its own before
    anything else is appended, resolved or executed: authored ["user"],
    carrying the message (with the placeholder of its file for every
    inline-data part when artifacts are saved) and the requested state
    delta. The agent is resolved on the session that already holds this
    event, and the caller is yielded what the pipeline yields, nothing
    more. *)
Theorem run_async_appends_the_user_message_first
    self user_id session_id new_message requested_delta run_config
    (s : St P) session self' ctx s' answer p' m :
  lookup_session (Runner.session_service self) (Runner.app_name self)
    user_id session_id = Some session →
  _new_invocation_context self session new_message None run_config s
    = (Returned (self', ctx), s', []) →
  on_user_message (plugin_manager env) ctx new_message (plugins s') = (answer, p') →
  effective_message answer new_message = Some m →
  no_parts m = false →
  let out :=
    run_async env self user_id session_id new_message requested_delta run_config s in
  ∃ user_event logs pipeline,
    Event.author user_event = "user" ∧
    Event.content user_event =
      Some (stored_content self' (save_input_blobs_as_artifacts run_config)
              (Ctx.invocation_id ctx) m) ∧
    (∀ delta, requested_delta = Some delta →
              state_delta (Event.actions user_event) = delta) ∧
    pipeline =
      _exec_with_plugin env
        (Ctx.set_agent
           (_find_agent_to_run (appended session [user_event]) (Runner.agent self')).2
           (Ctx.set_session (appended session [user_event]) ctx))
        (appended session [user_event]) (execute env) (mkSt p' (S (uuids s'))) ∧
    trace_of out =
      [GetSession (Runner.app_name self) user_id session_id;
       OnUserMessage new_message]
      ++ stored_saves self' session (save_input_blobs_as_artifacts run_config)
           (Ctx.invocation_id ctx) m
      ++ [AppendEvent user_event] ++ (Log <$> logs) ++ trace_of pipeline ∧
    appends (trace_of out) = user_event :: appends (trace_of pipeline) ∧
    yields (trace_of out) = yields (trace_of pipeline) ∧
    result_of out = result_of pipeline.
Proof.
  intros Hsession Hctx Hhook Hmsg Hparts out. subst out.
  rewrite (run_async_run _ _ _ _ _ _ _ _ _ _ _ _ _ _
             Hsession Hctx Hhook Hmsg Hparts).
  set (user_event :=
         Event.mk (pretty (uuids s')) (Ctx.invocation_id ctx) "user"
           (Some (stored_content self' (save_input_blobs_as_artifacts run_config)
                    (Ctx.invocation_id ctx) m))
           (user_actions requested_delta) None).
  exists user_event,
    (_find_agent_to_run (appended session [user_event]) (Runner.agent self')).1.
  eexists. split; [done|]. split; [done|].
  split; [by intros delta ->|]. split; [reflexivity|].
  unfold result_of, trace_of. cbn [fst snd]. split; [done|].
  rewrite !appends_app, !yields_app.
  destruct (stored_saves_silent self' session
              (save_input_blobs_as_artifacts run_config) (Ctx.invocation_id ctx) m)
    as [-> ->].
  match goal with
  | |- context [Log <$> ?l] => destruct (logs_silent l) as [-> ->]
  end.
  done.
Qed.

(** C8. A call that violates a precondition (the session asked for is
    absent, the message has no parts, live mode has neither a session nor
    both identifiers) raises the error of that violation; nothing has
    been appended or yielded, the agent has not been run, no pipeline hook
    has been called, and the session was looked up at most once. *)
Theorem precondition_violations_fail_fast (s : St P) (call : Call) (e : PyExn) :
  violation env s call e →
  let out := perform env call s in
  result_of out = Raised e ∧
  appends (trace_of out) = [] ∧
  yields (trace_of out) = [] ∧
  count is_execute (trace_of out) = 0 ∧
  forallb is_precheck (trace_of out) = true ∧
  (count is_get_session (trace_of out) ≤ 1)%nat.
Proof.
  intros Hv out. subst out.
  destruct Hv as
    [ self user_id session_id new_message requested_delta run_config Hnone
    | self user_id session_id queue run_config Hnone
    | self user_id session_id queue run_config Hmissing
    | self user_id session_id new_message requested_delta run_config
        session self' ctx s' t answer p' m Hsession Hctx Hhook Hmsg Hparts ];
    simpl perform.
  - unfold run_async, get_session, emit, raise. run_monad.
    rewrite Hnone. run_monad. fail_fast.
  - unfold run_live, get_session, emit, raise. run_monad.
    rewrite Hnone. run_monad. fail_fast.
  - unfold run_live, raise.
    destruct Hmissing as [-> | ->]; [|destruct user_id]; fail_fast.
  - destruct (new_invocation_context_run _ _ _ _ _ _ _ _ _ Hctx) as (-> & _ & _).
    unfold run_async, get_session, emit. run_monad.
    rewrite Hsession. run_monad. rewrite Hctx. run_monad.
    unfold run_on_user_message_callback. rewrite Hhook. run_monad.
    rewrite Hmsg. run_monad.
    unfold _append_new_message_to_session, raise. rewrite Hparts.
    run_monad. fail_fast.
Qed.
End Entry.

Lemma run_async_appends_the_user_message_first_witness :
  let env := Sample.env_of Sample.plugins_redacting Sample.streams (λ _, Closes 1) in
  let out :=
    run_async env Sample.runner "alice" "s1" (Some Sample.next_message) None
      default_run_config Sample.st0 in
  no_parts Sample.next_message = false ∧
  ∃ user_event logs (pipeline : Result Session * St nat * list Action),
    Event.author user_event = "user" ∧
    Event.content user_event = Some Sample.next_message ∧
    trace_of out =
      [GetSession "app" "alice" "s1"; OnUserMessage (Some Sample.next_message)]
      ++ [] ++ [AppendEvent user_event] ++ (Log <$> logs) ++ trace_of pipeline ∧
    appends (trace_of out) = user_event :: appends (trace_of pipeline) ∧
    yields (trace_of out) = yields (trace_of pipeline).
Proof.
  intros env out. split; [reflexivity|].
  destruct (run_async_appends_the_user_message_first env
              Sample.runner "alice" "s1" (Some Sample.next_message) None
              default_run_config Sample.st0 Sample.chat Sample.runner
              (Ctx.mk ("e-" +:+ pretty 7) (Some (root_ref Sample.root)) Sample.chat
                 (Some Sample.next_message) None default_run_config None)
              (mkSt 0 8) None 1 Sample.next_message
              eq_refl eq_refl eq_refl eq_refl eq_refl)
    as (user_event & logs & pipeline & Ha & Hc & _ & _ & Ht & Hap & Hy & _).
  exists user_event, logs, pipeline. by repeat split.
Defined.

(** C10 as stated fails for a message that is truthy and has no parts:
    [run_async] raises and appends nothing. And where artifacts are saved
    the event does not carry the message as it was given. *)
Lemma user_message_without_parts_is_not_appended :
  let env := Sample.env_of Sample.plugins_redacting Sample.streams (λ _, Closes 1) in
  let out :=
    run_async env Sample.runner "alice" "s1" (Some Sample.empty_message) None
      default_run_config Sample.st0 in
  let saved :=
    run_async env Sample.runner_with_artifacts "alice" "s1"
      (Some Sample.photo_message) None Sample.saving Sample.st0 in
  result_of out = Raised (ValueError "No parts in the new_message.") ∧
  appends (trace_of out) = [] ∧
  (Event.content <$> head (appends (trace_of saved))) =
    Some (Some (mkContent (Some "user")
                  (Some [text_part
                           "Uploaded file: artifact_e-7_0. It is saved into artifacts"]))).
Proof. repeat split. Qed.

Lemma precondition_violations_fail_fast_witness :
  let env := Sample.env_of Sample.plugins_redacting Sample.streams (λ _, Closes 1) in
  let out :=
    run_async env Sample.runner "alice" "s1" (Some Sample.empty_message) None
      default_run_config Sample.st0 in
  no_parts Sample.empty_message = true ∧
  result_of out = Raised (ValueError "No parts in the new_message.") ∧
  appends (trace_of out) = [] ∧
  yields (trace_of out) = [] ∧
  count is_execute (trace_of out) = 0 ∧
  forallb is_precheck (trace_of out) = true ∧
  (count is_get_session (trace_of out) ≤ 1)%nat.
Proof.
  intros env out. split; [reflexivity|].
  apply (precondition_violations_fail_fast env Sample.st0
           (CallRunAsync Sample.runner "alice" "s1" (Some Sample.empty_message) None
              default_run_config)).
  apply (EmptyMessage env Sample.st0 Sample.runner "alice" "s1"
           (Some Sample.empty_message) None default_run_config Sample.chat
           Sample.runner
           (Ctx.mk ("e-" +:+ pretty 7) (Some (root_ref Sample.root)) Sample.chat
              (Some Sample.empty_message) None default_run_config None)
           (mkSt 0 8) [] None 1 Sample.empty_message);
    reflexivity.
Defined.

(** ** Toolset cleanup *)

Lemma own_toolsets_spec a t : t ∈ own_toolsets a ↔ has_toolset a t.
Proof.
  unfold own_toolsets, has_toolset. destruct (llm a) as [l|].
  - transitivity (BaseToolset t ∈ tools l).
    + induction (tools l) as [|tool rest IH]; simpl.
      * split; [set_solver | by intros ?%elem_of_nil].
      * rewrite elem_of_cons. destruct tool as [n ps|n f|t']; rewrite <- ?IH.
        -- split; [by right | by intros [[=]|?]].
        -- split; [by right | by intros [[=]|?]].
        -- rewrite elem_of_union, elem_of_singleton.
           split; [intros [->|?]; [by left | by right] | intros [[= ->]|?]; [by left | by right]].
    + split; [intros ?; by exists l | by intros [l' [[= <-] ?]]].
  - split; [set_solver | by intros [l' [? ?]]].
Qed.

Lemma collect_toolset_eq a :
  _collect_toolset a =
  own_toolsets a ∪ foldr (λ s acc, _collect_toolset s ∪ acc) ∅ (sub_agents a).
Proof.
  by destruct a.
Qed.

Lemma descends_inv a above r :
  descends a above r →
  r = {| node := a; ancestors := above |} ∨
  ∃ s, s ∈ sub_agents a ∧ descends s (a :: above) r.
Proof. destruct 1; [by left | right; by eexists]. Qed.

(** The set collected is the set of toolsets held by the [LlmAgent]s of
    the tree. *)
Lemma collect_toolset_spec a : ∀ above t,
  t ∈ _collect_toolset a ↔ ∃ r, descends a above r ∧ has_toolset (node r) t.
Proof.
  induction a as [n k subs IH] using BaseAgent_rect_list. intros above t.
  rewrite collect_toolset_eq, elem_of_union, own_toolsets_spec. simpl sub_agents.
  set (a := mkAgent n k subs).
  assert (t ∈ foldr (λ s acc, _collect_toolset s ∪ acc) ∅ subs ↔
          ∃ s, s ∈ subs ∧ t ∈ _collect_toolset s) as ->.
  { clear. induction subs as [|s rest IHl]; simpl.
    - split; [set_solver | by intros [s [?%elem_of_nil _]]].
    - rewrite elem_of_union, IHl. split.
      + intros [?|[s' [? ?]]]; [exists s; split; [left | done] | exists s'; split; [by right | done]].
      + intros [s' [[->|?]%elem_of_cons ?]]; [by left | right; by exists s']. }
  rewrite Forall_forall in IH. split.
  - intros [Hown | [s [Hin Hs]]].
    + exists {| node := a; ancestors := above |}. split; [constructor | done].
    + apply (IH s Hin (a :: above)) in Hs as [r [Hd Hr]].
      exists r. split; [by eapply descends_below | done].
  - intros [r [Hd Hr]]. apply descends_inv in Hd as [-> | [s [Hin Hd]]].
    + by left.
    + right. exists s. split; [done|]. apply (IH s Hin (a :: above)). by exists r.
Qed.

Section Cleanup.
Context {P : Type} (env : Collaborators P).

(** A close that does not escape is attempted, logged, and leaves the loop
    free to go on. *)
Lemma close_toolset_run toolset (s : St P) :
  escapes env toolset = false →
  close_toolset env toolset s = (Returned tt, s, spec_close_block env toolset).
Proof.
  unfold escapes, close_toolset, spec_close_block, spec_close_log, try_except,
    wait_for, emit, raise.
  run_monad.
  destruct (wait_outcome (toolset_close env toolset) close_timeout) as [[]|e];
    run_monad; [done|].
  by destruct e.
Qed.

(** A close that escapes ends the loop with its exception. *)
Lemma close_toolset_escapes toolset (s : St P) :
  escapes env toolset = true →
  ∃ e, wait_outcome (toolset_close env toolset) close_timeout = Raised e ∧
       close_toolset env toolset s =
       (Raised e, s,
        [Log (LogInfo ("Closing toolset: " +:+ toolset_type_name env toolset));
         WaitFor toolset close_timeout]).
Proof.
  unfold escapes, close_toolset, try_except, wait_for, emit, raise.
  run_monad.
  destruct (wait_outcome (toolset_close env toolset) close_timeout) as [[]|e];
    [done|].
  intros He. exists e. split; [done|]. run_monad. by destruct e.
Qed.

Lemma for_in_close_run l : ∀ s : St P,
  (∀ t, t ∈ l → escapes env t = false) →
  for_in l (close_toolset env) s =
  (Returned tt, s, concat (spec_close_block env <$> l)).
Proof.
  induction l as [|t rest IH]; intros s Hok; simpl; [done|].
  run_monad. rewrite close_toolset_run by (apply Hok; left).
  run_monad. rewrite IH by (intros t' ?; apply Hok; by right).
  done.
Qed.

Lemma waits_blocks l :
  waits (concat (spec_close_block env <$> l)) = (λ t, (t, close_timeout)) <$> l.
Proof.
  induction l as [|t rest IH]; [done|].
  change (waits (spec_close_block env t ++ concat (spec_close_block env <$> rest))
          = (t, close_timeout) :: ((λ t, (t, close_timeout)) <$> rest)).
  unfold waits at 1. rewrite omap_app. fold (waits (concat (spec_close_block env <$> rest))).
  by rewrite IH.
Qed.

(** C9, as amended. [close] collects the toolsets held by the
    [LlmAgent]s of the whole tree, each once however many agents hold it.
    When no close escapes with an exception outside [Exception], it attempts
    every collected toolset exactly once, one after the other, each under
    the timeout of 10, logs the outcome of each (success, timeout or
    error) before going on to the next, and returns without raising. *)
Theorem close_attempts_every_toolset_once (self : Runner) (s : St P) :
  (∀ X, set_iter env X ≡ₚ elements X) →
  (∀ t, t ∈ _collect_toolset (Runner.agent self) → escapes env t = false) →
  let toolsets := _collect_toolset (Runner.agent self) in
  let out := close env self s in
  (∀ t, t ∈ toolsets ↔
        ∃ r, in_tree (Runner.agent self) r ∧ has_toolset (node r) t) ∧
  result_of out = Returned tt ∧
  trace_of out = concat (spec_close_block env <$> set_iter env toolsets) ∧
  (waits (trace_of out)).*1 ≡ₚ elements toolsets ∧
  NoDup (waits (trace_of out)).*1 ∧
  Forall (λ w, w.2 = 10%N) (waits (trace_of out)).
Proof.
  intros Horder Hok toolsets out.
  split; [intros t; apply collect_toolset_spec|].
  assert (out = (Returned tt, s, concat (spec_close_block env <$> set_iter env toolsets)))
    as ->.
  { subst out toolsets. unfold close, _cleanup_toolsets.
    destruct (bool_decide (_collect_toolset (Runner.agent self) = ∅)) eqn:E.
    - apply bool_decide_eq_true in E.
      pose proof (Horder (_collect_toolset (Runner.agent self))) as Hp.
      rewrite E in Hp |- *. rewrite elements_empty in Hp.
      apply Permutation_nil_r in Hp. by rewrite Hp.
    - apply for_in_close_run. intros t Ht. apply Hok.
      apply elem_of_elements. by rewrite <- (Horder _). }
  unfold result_of, trace_of. cbn [fst snd].
  split; [done|]. split; [done|].
  rewrite waits_blocks.
  assert (((λ t, (t, close_timeout)) <$> set_iter env toolsets).*1
          = set_iter env toolsets) as Hfst.
  { rewrite <- list_fmap_compose. apply list_fmap_id. }
  rewrite Hfst. split; [apply Horder|].
  split; [rewrite (Horder toolsets); apply NoDup_elements|].
  apply Forall_fmap, Forall_true. done.
Qed.
End Cleanup.

Lemma close_attempts_every_toolset_once_witness :
  let env := Sample.env_of Sample.plugins_down Sample.streams Sample.closing in
  let out := close env (Sample.runner_of Sample.orderly) Sample.st0 in
  (∀ t, t ∈ _collect_toolset Sample.orderly → escapes env t = false) ∧
  result_of out = Returned tt ∧
  (waits (trace_of out)).*1 ≡ₚ elements (_collect_toolset Sample.orderly) ∧
  NoDup (waits (trace_of out)).*1.
Proof.
  intros env out.
  assert (∀ t, t ∈ _collect_toolset Sample.orderly → escapes env t = false) as Hok.
  { intros t Ht. apply elem_of_elements in Ht.
    assert (elements (_collect_toolset Sample.orderly) = [4; 3; 1]) as Hel
      by (vm_compute; reflexivity).
    rewrite Hel in Ht.
    repeat (apply elem_of_cons in Ht as [->|Ht]; [reflexivity|]).
    by apply elem_of_nil in Ht. }
  split; [exact Hok|].
  destruct (close_attempts_every_toolset_once env (Sample.runner_of Sample.orderly)
              Sample.st0 (λ X, reflexivity _) Hok)
    as (_ & Hr & _ & Hp & Hn & _).
  split; [exact Hr|]. split; [exact Hp | exact Hn].
Defined.

(** C9 as stated fails where a close is cancelled: [CancelledError] is not
    an [Exception], so it is neither logged nor caught; [close] raises it,
    and of the four toolsets collected the two that come later in the
    iteration are never attempted. *)
Lemma cancelled_close_escapes_the_cleanup :
  let env := Sample.env_of Sample.plugins_down Sample.streams Sample.closing in
  let out := close env (Sample.runner_of Sample.tooled) Sample.st0 in
  toolset_close env 2 = Fails 1 CancelledError ∧
  set_iter env (_collect_toolset Sample.tooled) = [4; 2; 3; 1] ∧
  result_of out = Raised CancelledError ∧
  (waits (trace_of out)).*1 = [4; 2] ∧
  trace_of out =
    [Log (LogInfo "Closing toolset: MCPToolset"); WaitFor 4 10;
     Log (LogWarning "Toolset MCPToolset cleanup timed out");
     Log (LogInfo "Closing toolset: MCPToolset"); WaitFor 2 10].
Proof. repeat split; vm_compute; reflexivity. Qed.

(** ** The blocking bridge *)

Lemma bridge_inv_start events ending :
  bridge_inv events ending (bridge_start events ending).
Proof. by repeat split. Qed.

Lemma bridge_inv_step events ending b b' :
  bridge_inv events ending b → bridge_step b b' → bridge_inv events ending b'.
Proof.
  intros (Hq & He & Hf) [Hw | Hc]; destruct b as [w q c ys]; simpl in *.
  - unfold worker_step in Hw. simpl in Hw. unfold bridge_inv, taken in *. simpl in *.
    destruct w as [[|e pending] en | en | en | en]; simplify_eq; simpl in *;
      (split; [rewrite <- Hq, <- ?app_assoc; done|]);
      (split; [done|]); intros ->; by specialize (Hf eq_refl).
  - unfold consumer_step in Hc. simpl in Hc. unfold bridge_inv, taken in *. simpl in *.
    destruct c; [destruct q as [|[e|] q] | destruct w |]; simplify_eq; simpl in *;
      (split; [rewrite <- Hq, ?fmap_app, <- ?app_assoc, ?app_nil_r; done|]);
      (split; [done|]); done.
Qed.

Lemma bridge_inv_nsteps events ending n b b' :
  bridge_inv events ending b → nsteps bridge_step n b b' → bridge_inv events ending b'.
Proof.
  intros Hinv Hn. induction Hn as [|n x y z Hxy _ IH]; [done|].
  apply IH. by eapply bridge_inv_step.
Qed.

(** A stream of events followed by a sentinel is cut at the sentinel in one
    way only. *)
Lemma sentinel_cut (ys events : list Event) (rest rest' : list (option Event)) :
  (Some <$> ys) ++ None :: rest = (Some <$> events) ++ None :: rest' →
  ys = events.
Proof.
  revert events. induction ys as [|y ys IH]; intros [|e events]; simpl; try done.
  intros [= -> H]. f_equal. by apply IH.
Qed.

Lemma sentinel_prefix (ys events : list Event) (rest rest' : list (option Event)) :
  (Some <$> ys) ++ rest = (Some <$> events) ++ None :: rest' →
  ys `prefix_of` events.
Proof.
  revert events. induction ys as [|y ys IH]; intros events; simpl.
  - intros _. apply prefix_nil.
  - destruct events as [|e events]; simpl; [done|].
    intros [= -> H]. apply prefix_cons. by eapply IH.
Qed.

Lemma no_sentinel (ys : list Event) : ∀ events (rest : list (option Event)),
  Some <$> ys ≠ (Some <$> events) ++ None :: rest.
Proof.
  induction ys as [|y ys IH]; intros [|e events] rest; simpl; try done.
  intros [= _ H]. by eapply IH.
Qed.

Lemma bridge_step_fuel b b' :
  bridge_step b b' → bridge_fuel b' < bridge_fuel b.
Proof.
  intros [Hw | Hc]; destruct b as [w q c ys]; unfold bridge_fuel.
  - unfold worker_step in Hw. simpl in Hw.
    destruct w as [[|e pending] en | en | en | en]; simplify_eq; simpl;
      rewrite ?length_app; simpl; lia.
  - unfold consumer_step in Hc. simpl in Hc.
    destruct c; [destruct q as [|[e|] q] | destruct w |]; simplify_eq; simpl; lia.
Qed.

Lemma bridge_nsteps_fuel n b b' :
  nsteps bridge_step n b b' → n + bridge_fuel b' ≤ bridge_fuel b.
Proof.
  induction 1 as [|n x y z Hxy _ IH]; [done|].
  apply bridge_step_fuel in Hxy. lia.
Qed.

(** Until the consumer has returned, one of the two threads can move. *)
Lemma bridge_progress events ending b :
  bridge_inv events ending b → consumer b ≠ Finished → ∃ b', bridge_step b b'.
Proof.
  intros (Hq & _ & _) Hc. destruct b as [w q c ys]. simpl in *.
  destruct (worker_step (mkBridge w q c ys)) as [b'|] eqn:Hw;
    [exists b'; by left|].
  unfold worker_step in Hw. simpl in Hw.
  destruct w as [[|e pending] en | en | en | en]; try done.
  unfold taken in Hq. simpl in Hq. rewrite app_nil_r in Hq.
  destruct c; [|eexists; by right|done].
  destruct q as [|item q].
  - rewrite !app_nil_r in Hq. by apply no_sentinel in Hq.
  - destruct item; eexists; by right.
Qed.

(** From every state the bridge can get to, the consumer can be brought to
    return. *)
Lemma bridge_finishes events ending : ∀ fuel b,
  bridge_fuel b ≤ fuel → bridge_inv events ending b →
  ∃ b', rtc bridge_step b b' ∧ consumer b' = Finished.
Proof.
  induction fuel as [|fuel IH]; intros b Hfuel Hinv.
  - exists b. split; [done|]. destruct b as [w q [] ys]; unfold bridge_fuel in Hfuel;
      simpl in *; [lia | lia | done].
  - assert (consumer b = Finished ∨ consumer b ≠ Finished) as [Hf | Hf]
      by (destruct (consumer b); [by right | by right | by left]);
      [by exists b|].
    destruct (bridge_progress _ _ _ Hinv Hf) as [b1 Hstep].
    destruct (IH b1) as (b' & Hrtc & Hfin).
    + apply bridge_step_fuel in Hstep. lia.
    + by eapply bridge_inv_step.
    + exists b'. split; [by eapply rtc_l | done].
Qed.

Lemma schedule_steps ticks : ∀ b, ∃ n, nsteps bridge_step n b (schedule ticks b).
Proof.
  induction ticks as [|w ticks IH]; intros b; simpl; [exists 0; constructor|].
  destruct w.
  - destruct (worker_step b) as [b1|] eqn:Hw; [|destruct (consumer_step b) as [b1|] eqn:Hc].
    + destruct (IH b1) as [n Hn]. exists (S n). eapply nsteps_l; [by left | done].
    + destruct (IH b1) as [n Hn]. exists (S n). eapply nsteps_l; [by right | done].
    + exists 0. constructor.
  - destruct (consumer_step b) as [b1|] eqn:Hc; [|destruct (worker_step b) as [b1|] eqn:Hw].
    + destruct (IH b1) as [n Hn]. exists (S n). eapply nsteps_l; [by right | done].
    + destruct (IH b1) as [n Hn]. exists (S n). eapply nsteps_l; [by left | done].
    + exists 0. constructor.
Qed.

Section Bridge.
Context {P : Type} (env : Collaborators P).

(** C7. In every interleaving of the worker thread and the calling thread,
    what [run] has re-yielded is at any moment the beginning of what
    [run_async] yields, in the same order, and once the consumer has
    returned it is all of it. Until then one of the two threads can always
    move, every run is finite, and every run can be carried on until the
    consumer returns: it always sees the sentinel, however [run_async]
    ended. The exception [run_async] ended with stays with the worker; the
    consumer returns normally. *)
Theorem blocking_run_reyields_run_async
    (self : Runner) (user_id session_id : string) (new_message : option Content)
    (run_config : RunConfig) (s : St P) (n : nat) (b : Bridge) :
  nsteps bridge_step n (run env self user_id session_id new_message run_config s) b →
  let out := run_async env self user_id session_id new_message None run_config s in
  let ending := match result_of out with Raised e => Some e | Returned _ => None end in
  reyielded b `prefix_of` yields (trace_of out) ∧
  (consumer b = Finished →
     reyielded b = yields (trace_of out) ∧ worker b = Exited ending) ∧
  (consumer b ≠ Finished → ∃ b', bridge_step b b') ∧
  (∃ b', rtc bridge_step b b' ∧ consumer b' = Finished ∧
         reyielded b' = yields (trace_of out)) ∧
  n ≤ 2 * length (yields (trace_of out)) + 8.
Proof.
  intros Hn out ending.
  unfold run, run_async_outcome in Hn. fold out in Hn. fold ending in Hn.
  pose proof (bridge_inv_nsteps _ _ _ _ _ (bridge_inv_start _ _) Hn) as Hinv.
  assert (∀ b0, bridge_inv (yields (trace_of out)) ending b0 →
                consumer b0 = Finished → reyielded b0 = yields (trace_of out)) as Hdone.
  { intros b0 (Hq & _ & _) Hc. unfold taken in Hq. rewrite Hc in Hq.
    rewrite <- !app_assoc in Hq. simpl in Hq. by eapply sentinel_cut. }
  split.
  { destruct Hinv as (Hq & _ & _). unfold taken in Hq.
    rewrite <- app_assoc in Hq. by eapply sentinel_prefix. }
  split.
  { intros Hc. split; [by apply Hdone|]. destruct Hinv as (_ & _ & Hf). by apply Hf. }
  split; [by eapply bridge_progress|].
  split.
  { destruct (bridge_finishes _ _ _ b (le_n _) Hinv) as (b' & Hrtc & Hfin).
    exists b'. split; [done|]. split; [done|]. apply Hdone; [|done].
    apply rtc_nsteps_1 in Hrtc as [k Hk]. by eapply bridge_inv_nsteps. }
  apply bridge_nsteps_fuel in Hn. unfold bridge_fuel, bridge_start in Hn.
  simpl in Hn. lia.
Qed.
End Bridge.

Lemma blocking_run_reyields_run_async_witness :
  let env := Sample.env_of Sample.plugins_redacting Sample.breaks (λ _, Closes 1) in
  let out :=
    run_async env Sample.runner "alice" "s1" (Some Sample.next_message) None
      default_run_config Sample.st0 in
  let b :=
    schedule [true; false; false; true; true; false; true; false; false; true; false]
      (run env Sample.runner "alice" "s1" (Some Sample.next_message)
         default_run_config Sample.st0) in
  result_of out = Raised (OtherException "model unavailable") ∧
  consumer b = Finished ∧
  reyielded b = yields (trace_of out) ∧
  yields (trace_of out) = [Sample.redacted Sample.fragment] ∧
  worker b = Exited (Some (OtherException "model unavailable")).
Proof.
  intros env out b.
  destruct (schedule_steps
              [true; false; false; true; true; false; true; false; false; true; false]
              (run env Sample.runner "alice" "s1" (Some Sample.next_message)
                 default_run_config Sample.st0)) as [n Hn].
  destruct (blocking_run_reyields_run_async env Sample.runner "alice" "s1"
              (Some Sample.next_message) default_run_config Sample.st0 n _ Hn)
    as (_ & Hfin & _).
  assert (consumer b = Finished) as Hc by reflexivity.
  destruct (Hfin Hc) as [Hy Hw].
  split; [reflexivity|]. split; [exact Hc|]. split; [exact Hy|].
  split; [reflexivity | exact Hw].
Defined.

(** * Further properties of the runner *)

(** ** Turn resolution *)

Lemma filter_user_events (users : list Event) :
  Forall (λ u, Event.author u = "user") users →
  filter (λ e, not_user e = true) users = [].
Proof.
  induction 1 as [|u users Hu _ IH]; [done|].
  rewrite filter_cons_False; [done|]. unfold not_user. by rewrite Hu.
Qed.

(** The scan does not see user events: a session with user events put in
    anywhere resolves, with the same warnings, as the session without
    them, as long as the function-call rule selects nothing in either. *)
Theorem user_events_do_not_change_the_scan
    (app user sid : string) (before users after : list Event)
    (root_agent : BaseAgent) :
  Forall (λ u, Event.author u = "user") users →
  (∀ e, find_matching_function_call (before ++ users ++ after) = Some e →
        Event.author e = "") →
  (∀ e, find_matching_function_call (before ++ after) = Some e →
        Event.author e = "") →
  _find_agent_to_run (Session.mk app user sid (before ++ users ++ after)) root_agent =
  _find_agent_to_run (Session.mk app user sid (before ++ after)) root_agent.
Proof.
  intros Husers Hwith Hwithout.
  rewrite !find_agent_to_run_scans by done.
  unfold scan_session. simpl.
  rewrite !reverse_app, !filter_app.
  rewrite (filter_user_events (reverse users)) by (by apply Forall_reverse).
  by rewrite app_nil_r.
Qed.

Lemma user_events_do_not_change_the_scan_witness :
  _find_agent_to_run
    (Session.mk "app" "alice" "s1"
       ([Sample.said "C" [text_part "hello"]]
        ++ [Sample.said "user" [text_part "hi"]; Sample.said "user" [text_part "again"]]
        ++ [Sample.said "stranger" [text_part "?"]])) Sample.root =
  _find_agent_to_run
    (Session.mk "app" "alice" "s1"
       ([Sample.said "C" [text_part "hello"]]
        ++ [Sample.said "stranger" [text_part "?"]])) Sample.root.
Proof.
  apply (user_events_do_not_change_the_scan "app" "alice" "s1").
  - repeat constructor.
  - intros e. discriminate.
  - intros e. discriminate.
Defined.

(** When the last event that is not the user's is the root's own, the root
    takes the turn: without a transferability check (the root may be no
    [LlmAgent] at all), without a warning, and whatever came before. *)
Theorem root_that_spoke_last_takes_the_turn
    (session : Session) (root_agent : BaseAgent)
    (older users : list Event) (event : Event) :
  Session.events session = older ++ event :: users →
  Forall (λ u, Event.author u = "user") users →
  Event.author event = name root_agent →
  Event.author event ≠ "user" →
  (∀ e, find_matching_function_call (Session.events session) = Some e →
        Event.author e = "") →
  _find_agent_to_run session root_agent = ([], Some (root_ref root_agent)).
Proof.
  intros Hevents Husers Hroot Huser Hno.
  rewrite (find_agent_to_run_scans _ _ Hno). unfold scan_session.
  rewrite Hevents, reverse_app, reverse_cons, filter_app, filter_app.
  rewrite (filter_user_events (reverse users)) by (by apply Forall_reverse).
  rewrite filter_cons_True by (unfold not_user; by apply String.eqb_neq in Huser as ->).
  simpl. apply String.eqb_eq in Hroot. by rewrite Hroot.
Qed.

Lemma root_that_spoke_last_takes_the_turn_witness :
  _find_agent_to_run
    (Sample.session_of
       [Sample.said "B" [text_part "welcome"]; Sample.said "D" [text_part "done"];
        Sample.said "user" [text_part "thanks"]])
    Sample.agent_D
  = ([], Some (root_ref Sample.agent_D)).
Proof.
  apply (root_that_spoke_last_takes_the_turn _ Sample.agent_D
           [Sample.said "B" [text_part "welcome"]]
           [Sample.said "user" [text_part "thanks"]]
           (Sample.said "D" [text_part "done"])).
  - reflexivity.
  - repeat constructor.
  - reflexivity.
  - discriminate.
  - intros e. discriminate.
Defined.

(** Transferability is inherited downwards only: an agent that can transfer
    has a parent that can, so below an agent that cannot transfer no agent
    can. *)
Theorem transferable_agent_has_transferable_parent (r p : AgentRef) :
  _is_transferable_across_agent_tree r = true →
  parent_agent r = Some p →
  _is_transferable_across_agent_tree p = true ∧ transfer_capable (node r).
Proof.
  intros Hr Hp. apply is_transferable_spec in Hr.
  unfold parent_agent in Hp. unfold path_to_root in Hr.
  destruct (ancestors r) as [|q rest] eqn:Ha; [done|].
  injection Hp as <-. apply Forall_cons in Hr as [Hn Hrest].
  split; [|done]. by apply is_transferable_spec.
Qed.

Lemma transferable_agent_has_transferable_parent_witness :
  _is_transferable_across_agent_tree (root_ref Sample.root) = true ∧
  transfer_capable Sample.agent_C.
Proof.
  apply (transferable_agent_has_transferable_parent Sample.ref_C (root_ref Sample.root));
    reflexivity.
Defined.

(** ** The execution pipeline *)

Section PipelineMore.
Context {P : Type} (env : Collaborators P).

(** The pipeline only ever adds to the session: when it returns, the
    session it leaves is the one it was given, same application, user and
    id, followed by exactly the events it appended, in the order of the
    appends; nothing that was there is dropped or moved. *)
Theorem pipeline_only_appends_to_the_session
    (ctx : InvocationContext) (session : Session)
    (execute_fn : InvocationContext → AgentRun) (s : St P) :
  let out := _exec_with_plugin env ctx session execute_fn s in
  match result_of out with
  | Returned session' =>
      session' = appended session (appends (trace_of out)) ∧
      Session.events session `prefix_of` Session.events session' ∧
      Session.app_name session' = Session.app_name session ∧
      Session.user_id session' = Session.user_id session ∧
      Session.id session' = Session.id session
  | Raised _ => True
  end.
Proof.
  intros out. subst out.
  destruct (before_run (plugin_manager env) ctx (plugins s)) as [early p'] eqn:Hearly.
  assert ((∃ c, early = ObjContent c) ∨ (∀ c, early ≠ ObjContent c))
    as [[c ->]|Hnot] by (destruct early; [right; done | left; by eexists | right; done]).
  - rewrite (exec_with_plugin_early _ _ _ _ _ _ _ Hearly).
    unfold result_of, trace_of. cbn [fst snd]. simpl appends.
    split; [done|]. split; [by apply prefix_app_r|]. done.
  - rewrite (exec_with_plugin_normal _ _ _ _ _ _ _ Hearly Hnot).
    destruct (raises (execute_fn ctx)); unfold result_of, trace_of; cbn [fst snd];
      [done|].
    rewrite !appends_app, blocks_appends by apply hook_answers_length.
    simpl. rewrite app_nil_r.
    split; [done|]. split; [by apply prefix_app_r|]. done.
Qed.

(** With no agent to run (resolution returned [None]) the pipeline, unless
    the before-run hook answers itself, fails on [ctx.agent.run_async]: an
    [AttributeError], nothing appended or yielded, no event hook and no
    after-run hook called. *)
Theorem pipeline_without_agent_raises_attribute_error
    (ctx : InvocationContext) (session : Session) (s : St P)
    (early : PyObject) (p' : P) :
  Ctx.agent ctx = None →
  before_run (plugin_manager env) ctx (plugins s) = (early, p') →
  (∀ c, early ≠ ObjContent c) →
  _exec_with_plugin env ctx session (execute env) s =
  (Raised (AttributeError "'NoneType' object has no attribute 'run_async'"),
   mkSt p' (uuids s), [BeforeRun; Execute None]).
Proof.
  intros Hagent Hearly Hnot.
  rewrite (exec_with_plugin_normal _ _ _ _ _ _ _ Hearly Hnot).
  unfold execute. by rewrite Hagent.
Qed.
End PipelineMore.

Lemma pipeline_without_agent_raises_attribute_error_witness :
  let env := Sample.env_of Sample.plugins_redacting Sample.streams (λ _, Closes 1) in
  _exec_with_plugin env (Ctx.set_agent None Sample.ctx0) Sample.chat (execute env)
    Sample.st0 =
  (Raised (AttributeError "'NoneType' object has no attribute 'run_async'"),
   mkSt 1 7, [BeforeRun; Execute None]).
Proof.
  intros env.
  apply (pipeline_without_agent_raises_attribute_error env
           (Ctx.set_agent None Sample.ctx0) Sample.chat Sample.st0 ObjNone 1).
  - reflexivity.
  - reflexivity.
  - intros c. discriminate.
Defined.

(** ** Context creation *)

Lemma live_run_config_keeps_flags self queue run_config :
  support_cfc (live_run_config self queue run_config) = support_cfc run_config ∧
  save_input_blobs_as_artifacts (live_run_config self queue run_config)
    = save_input_blobs_as_artifacts run_config.
Proof.
  unfold live_run_config. by repeat case_match.
Qed.

Lemma new_invocation_context_unsupported {P} self session new_message queue
    run_config (s : St P) l :
  support_cfc run_config = true →
  llm (Runner.agent self) = Some l →
  String.prefix "gemini-2" (canonical_model l) = false →
  _new_invocation_context self session new_message queue run_config s =
  (Raised (ValueError ("CFC is not supported for model: " +:+ canonical_model l
                       +:+ " in agent: " +:+ name (Runner.agent self))),
   mkSt (plugins s) (S (uuids s)), []).
Proof.
  intros Hcfc Hllm Hmodel. destruct s as [p u].
  unfold _new_invocation_context, new_invocation_context_id, new_uuid, raise.
  run_monad. rewrite Hcfc, Hllm. cbn zeta. rewrite Hmodel. by run_monad.
Qed.

Section Contexts.
Context {P : Type} (env : Collaborators P).

(** Continuous function calling asked of a root [LlmAgent] whose model name
    does not start with ["gemini-2"] is refused by both entry points before
    any hook is called and before anything is appended, resolved or run:
    [run_async] has only looked the session up, [run_live] has done nothing
    but warn about its deprecated parameter. *)
Theorem unsupported_cfc_model_fails_fast
    (self : Runner) (run_config : RunConfig) (l : LlmAgent) :
  support_cfc run_config = true →
  llm (Runner.agent self) = Some l →
  String.prefix "gemini-2" (canonical_model l) = false →
  let error :=
    ValueError ("CFC is not supported for model: " +:+ canonical_model l
                +:+ " in agent: " +:+ name (Runner.agent self)) in
  (∀ user_id session_id new_message requested_delta (s : St P) session,
     lookup_session (Runner.session_service self) (Runner.app_name self)
       user_id session_id = Some session →
     run_async env self user_id session_id new_message requested_delta run_config s =
     (Raised error, mkSt (plugins s) (S (uuids s)),
      [GetSession (Runner.app_name self) user_id session_id])) ∧
  (∀ user_id session_id queue (s : St P) session,
     ∃ warning,
       run_live env self user_id session_id queue run_config (Some session) s =
       (Raised error, mkSt (plugins s) (S (uuids s)), [DeprecationWarning warning])).
Proof.
  intros Hcfc Hllm Hmodel error. split.
  - intros user_id session_id new_message requested_delta s session Hsession.
    unfold run_async, get_session, emit. run_monad. rewrite Hsession. run_monad.
    rewrite (new_invocation_context_unsupported _ _ _ _ _ _ l Hcfc Hllm Hmodel).
    by run_monad.
  - intros user_id session_id queue s session. eexists.
    unfold run_live, run_live_in, _new_invocation_context_for_live, emit.
    run_monad.
    rewrite (new_invocation_context_unsupported _ _ _ _ _ _ l); try done.
    by rewrite (proj1 (live_run_config_keeps_flags _ _ _)).
Qed.

(** Creating the context leaves the runner and its tree as they were, but
    for one field: under continuous function calling the code executor of a
    root [LlmAgent] is the built-in one afterwards. The context it returns
    has a fresh invocation id, points at the root and holds the session,
    the message, the request queue and the run configuration as given.
    No hook is called and nothing is appended or yielded. *)
Theorem context_creation_touches_only_the_code_executor
    (self self' : Runner) (session : Session) (new_message : option Content)
    (queue : option LiveRequestQueue) (run_config : RunConfig)
    (s s' : St P) (ctx : InvocationContext) (t : list Action) :
  _new_invocation_context self session new_message queue run_config s
    = (Returned (self', ctx), s', t) →
  Runner.app_name self' = Runner.app_name self ∧
  Runner.artifact_service self' = Runner.artifact_service self ∧
  Runner.session_service self' = Runner.session_service self ∧
  name (Runner.agent self') = name (Runner.agent self) ∧
  sub_agents (Runner.agent self') = sub_agents (Runner.agent self) ∧
  match llm (Runner.agent self), llm (Runner.agent self') with
  | Some l, Some l' =>
      disallow_transfer_to_parent l' = disallow_transfer_to_parent l ∧
      tools l' = tools l ∧
      canonical_model l' = canonical_model l ∧
      code_executor l' =
        (if support_cfc run_config then BuiltInCodeExecutor else code_executor l) ∧
      (support_cfc run_config = true →
         String.prefix "gemini-2" (canonical_model l) = true)
  | None, None => True
  | _, _ => False
  end ∧
  Ctx.invocation_id ctx = "e-" +:+ pretty (uuids s) ∧
  Ctx.agent ctx = Some (root_ref (Runner.agent self')) ∧
  Ctx.session ctx = session ∧
  Ctx.user_content ctx = new_message ∧
  Ctx.live_request_queue ctx = queue ∧
  Ctx.run_config ctx = run_config ∧
  t = [] ∧ plugins s' = plugins s.
Proof.
  unfold _new_invocation_context, new_invocation_context_id, new_uuid, raise.
  destruct s as [p u]. destruct self as [an agent artifacts svc]. run_monad. simpl.
  destruct (support_cfc run_config); run_monad.
  - destruct agent as [n [l|] subs]; simpl; run_monad.
    + destruct (String.prefix "gemini-2" (canonical_model l)) eqn:Hm; simpl;
        run_monad; [|done].
      destruct l as [d ts m ce]. simpl in *.
      destruct ce; run_monad; intros [= <- <- <- <-]; simpl; by repeat split.
    + intros [= <- <- <- <-]. by repeat split.
  - intros [= <- <- <- <-]. simpl. destruct (llm agent); by repeat split.
Qed.
End Contexts.

Lemma unsupported_cfc_model_fails_fast_witness :
  let env := Sample.env_of Sample.plugins_redacting Sample.streams (λ _, Closes 1) in
  run_async env Sample.legacy_runner "alice" "s1" (Some Sample.next_message) None
    Sample.with_cfc Sample.st0 =
  (Raised (ValueError "CFC is not supported for model: gemini-1.5-pro in agent: root"),
   mkSt 0 8, [GetSession "app" "alice" "s1"]).
Proof.
  intros env.
  destruct (unsupported_cfc_model_fails_fast env Sample.legacy_runner Sample.with_cfc
              (mkLlmAgent false [] "gemini-1.5-pro" NoCodeExecutor)
              eq_refl eq_refl eq_refl) as [Hasync _].
  apply (Hasync "alice" "s1" (Some Sample.next_message) None Sample.st0 Sample.chat).
  reflexivity.
Defined.

Lemma context_creation_touches_only_the_code_executor_witness :
  ∃ l', llm (Runner.agent
               (Runner.set_agent (set_code_executor BuiltInCodeExecutor Sample.root)
                  Sample.runner)) = Some l' ∧
        code_executor l' = BuiltInCodeExecutor ∧
        tools l' = [] ∧ canonical_model l' = "gemini-2.0-flash".
Proof.
  destruct (context_creation_touches_only_the_code_executor (P:=nat)
              Sample.runner
              (Runner.set_agent (set_code_executor BuiltInCodeExecutor Sample.root)
                 Sample.runner)
              Sample.chat None None Sample.with_cfc Sample.st0 (mkSt 0 8)
              (Ctx.mk ("e-" +:+ pretty 7)
                 (Some (root_ref (set_code_executor BuiltInCodeExecutor Sample.root)))
                 Sample.chat None None Sample.with_cfc None) [] eq_refl)
    as (_ & _ & _ & _ & _ & Hllm & _).
  simpl in Hllm. destruct Hllm as (_ & Ht & Hm & Hc & _).
  eexists. split; [reflexivity|]. split; [exact Hc|]. split; [exact Ht | exact Hm].
Defined.

(** ** The user message *)

Lemma artifact_file_name_inj invocation_id : Inj (=) (=) (artifact_file_name invocation_id).
Proof.
  intros i j H. unfold artifact_file_name in H.
  apply String.app_inj, String.app_inj, String.app_inj in H.
  by apply (inj pretty) in H.
Qed.

Lemma with_placeholders_length invocation_id l : ∀ i,
  length (with_placeholders invocation_id i l) = length l.
Proof. induction l as [|p l IH]; intros i; simpl; [done|]. by rewrite IH. Qed.

Lemma with_placeholders_lookup invocation_id l : ∀ i k part,
  l !! k = Some part →
  with_placeholders invocation_id i l !! k =
  Some match inline_data part with
       | None => part
       | Some _ => uploaded_placeholder (artifact_file_name invocation_id (i + k))
       end.
Proof.
  induction l as [|p l IH]; intros i [|k] part; simpl; try done.
  - intros [= ->]. by rewrite Nat.add_0_r.
  - intros Hk. rewrite (IH (S i) k part Hk). by rewrite Nat.add_succ_r.
Qed.

Lemma with_placeholders_clean invocation_id l : ∀ i,
  Forall (λ p, inline_data p = None) (with_placeholders invocation_id i l).
Proof.
  induction l as [|p l IH]; intros i; simpl; constructor; [|apply IH].
  by destruct (inline_data p) eqn:E.
Qed.

Lemma artifact_saves_lookup self session invocation_id l : ∀ i k part,
  l !! k = Some part → inline_data part ≠ None →
  SaveArtifact (Runner.app_name self) (Session.user_id session) (Session.id session)
    (artifact_file_name invocation_id (i + k)) part
  ∈ artifact_saves self session invocation_id i l.
Proof.
  induction l as [|p l IH]; intros i [|k] part; simpl; try done.
  - intros [= ->] Hb. rewrite Nat.add_0_r.
    destruct (inline_data part); [left | done].
  - intros Hk Hb. apply elem_of_app. right.
    rewrite Nat.add_succ_r. by apply (IH (S i)).
Qed.

Lemma artifact_saves_names self session invocation_id l : ∀ i,
  Forall (λ n, ∃ j, i ≤ j ∧ n = artifact_file_name invocation_id j)
         (saved_names (artifact_saves self session invocation_id i l)) ∧
  NoDup (saved_names (artifact_saves self session invocation_id i l)).
Proof.
  induction l as [|p l IH]; intros i; simpl; [split; constructor|].
  destruct (IH (S i)) as [Hnames Hnodup].
  assert (Forall (λ n, ∃ j, i ≤ j ∧ n = artifact_file_name invocation_id j)
            (saved_names (artifact_saves self session invocation_id (S i) l)))
    as Hnames'.
  { eapply Forall_impl; [exact Hnames|]. intros n (j & ? & ->). exists j. split; [lia|done]. }
  destruct (inline_data p); simpl; [|done].
  split; [constructor; [by exists i | done]|].
  constructor; [|done].
  intros Hin. rewrite Forall_forall in Hnames.
  destruct (Hnames _ Hin) as (j & Hj & Heq).
  apply artifact_file_name_inj in Heq. lia.
Qed.

Section Messages.
Context {P : Type} (env : Collaborators P).

(** With an artifact service and [save_input_blobs_as_artifacts], the event
    appended for the user's message holds no inline data: every part that
    had some was saved, as it was, under the file name of its position and
    stands in the event as the text naming that file; the other parts are
    untouched and no part is added or dropped. *)
Theorem saved_message_keeps_no_inline_data
    (self : Runner) (session : Session) (m : Content) (ctx : InvocationContext)
    (requested_delta : option (gmap string Any)) (s : St P)
    (svc : BaseArtifactService) :
  Runner.artifact_service self = Some svc →
  no_parts m = false →
  let given := default [] (parts m) in
  let out :=
    _append_new_message_to_session self session m ctx true requested_delta s in
  ∃ event,
    result_of out = Returned (appended session [event]) ∧
    appends (trace_of out) = [event] ∧
    length (Event.content_parts event) = length given ∧
    Forall (λ p, inline_data p = None) (Event.content_parts event) ∧
    (∀ k part, given !! k = Some part → inline_data part = None →
               Event.content_parts event !! k = Some part) ∧
    (∀ k part, given !! k = Some part → inline_data part ≠ None →
               Event.content_parts event !! k =
                 Some (uploaded_placeholder
                         (artifact_file_name (Ctx.invocation_id ctx) k)) ∧
               SaveArtifact (Runner.app_name self) (Session.user_id session)
                 (Session.id session)
                 (artifact_file_name (Ctx.invocation_id ctx) k) part
               ∈ trace_of out).
Proof.
  intros Hsvc Hparts given out. subst out.
  rewrite (append_new_message_run _ _ _ _ _ _ _ Hparts).
  unfold stored_content, stored_saves. rewrite Hsvc.
  eexists. unfold result_of, trace_of. cbn [fst snd].
  split; [done|].
  split.
  { rewrite appends_app. by rewrite (proj2 (artifact_saves_silent _ _ _ _ _)). }
  unfold Event.content_parts. simpl. fold given.
  split; [apply with_placeholders_length|].
  split; [apply with_placeholders_clean|].
  split.
  - intros k part Hk Hnone.
    rewrite (with_placeholders_lookup _ _ 0 k part Hk). by rewrite Hnone.
  - intros k part Hk Hblob. split.
    + rewrite (with_placeholders_lookup _ _ 0 k part Hk).
      by destruct (inline_data part).
    + apply elem_of_app. left. by apply (artifact_saves_lookup _ _ _ _ 0).
Qed.

(** Whatever the message and the configuration, the artifacts saved for one
    message go to file names that differ from one another. *)
Theorem artifact_file_names_are_distinct
    (self : Runner) (session : Session) (m : Content) (ctx : InvocationContext)
    (save : bool) (requested_delta : option (gmap string Any)) (s : St P) :
  NoDup (saved_names
           (trace_of (_append_new_message_to_session self session m ctx save
                        requested_delta s))).
Proof.
  destruct (no_parts m) eqn:Hparts.
  - unfold _append_new_message_to_session. rewrite Hparts. constructor.
  - rewrite (append_new_message_run _ _ _ _ _ _ _ Hparts).
    unfold trace_of, saved_names. cbn [snd]. rewrite omap_app. simpl.
    rewrite app_nil_r. unfold stored_saves.
    destruct (Runner.artifact_service self), save; try constructor.
    apply artifact_saves_names.
Qed.

(** An empty state delta is no state delta: the call appends the same
    event, and does everything else the same, as the call without one. *)
Theorem empty_state_delta_is_no_state_delta
    (self : Runner) (session : Session) (m : Content) (ctx : InvocationContext)
    (save : bool) (s : St P) :
  _append_new_message_to_session self session m ctx save (Some ∅) s =
  _append_new_message_to_session self session m ctx save None s.
Proof.
  destruct (no_parts m) eqn:Hparts.
  - unfold _append_new_message_to_session. by rewrite Hparts.
  - by rewrite !(append_new_message_run _ _ _ _ _ _ _ Hparts).
Qed.

(** Without a message, and with a user-message hook that supplies none,
    [run_async] appends nothing of its own: after the lookup and the hook
    it resolves the agent on the session as stored and hands over to the
    pipeline. *)
Theorem run_async_without_message_goes_straight_to_the_pipeline
    self user_id session_id requested_delta run_config
    (s : St P) session self' ctx s' p' :
  lookup_session (Runner.session_service self) (Runner.app_name self)
    user_id session_id = Some session →
  _new_invocation_context self session None None run_config s
    = (Returned (self', ctx), s', []) →
  on_user_message (plugin_manager env) ctx None (plugins s') = (None, p') →
  let resolved := _find_agent_to_run session (Runner.agent self') in
  let pipeline :=
    _exec_with_plugin env (Ctx.set_agent resolved.2 (Ctx.set_session session ctx))
      session (execute env) (mkSt p' (uuids s')) in
  run_async env self user_id session_id None requested_delta run_config s =
  (result_of pipeline, state_of pipeline,
   [GetSession (Runner.app_name self) user_id session_id; OnUserMessage None]
   ++ (Log <$> resolved.1) ++ trace_of pipeline).
Proof.
  intros Hsession Hctx Hhook resolved pipeline.
  unfold run_async, get_session, emit. run_monad.
  rewrite Hsession. run_monad. rewrite Hctx. run_monad.
  unfold run_on_user_message_callback. rewrite Hhook. run_monad.
  unfold effective_message. run_monad.
  unfold resolve_agent, emit_all. fold resolved.
  destruct resolved as [logs found] eqn:Hres. run_monad.
  subst pipeline. simpl.
  destruct (_exec_with_plugin _ _ _ _ _) as [[r st] t].
  unfold result_of, state_of, trace_of. simpl. by rewrite app_nil_r.
Qed.
End Messages.

Lemma saved_message_keeps_no_inline_data_witness :
  let out :=
    _append_new_message_to_session Sample.runner_with_artifacts Sample.chat
      Sample.album Sample.ctx0 true None Sample.st0 in
  ∃ event,
    appends (trace_of out) = [event] ∧
    Event.content_parts event =
      [text_part "see";
       text_part "Uploaded file: artifact_e-0_1. It is saved into artifacts";
       text_part "and";
       text_part "Uploaded file: artifact_e-0_3. It is saved into artifacts"] ∧
    Forall (λ p, inline_data p = None) (Event.content_parts event).
Proof.
  intros out.
  destruct (saved_message_keeps_no_inline_data (P:=nat) Sample.runner_with_artifacts
              Sample.chat Sample.album Sample.ctx0 None Sample.st0
              InMemoryArtifactService eq_refl eq_refl)
    as (event & Hr & Ha & _ & Hclean & _).
  exists event. split; [exact Ha|]. split; [|exact Hclean].
  assert (appends (trace_of out) = [event]) as Ha' by exact Ha.
  vm_compute in Ha'. injection Ha' as <-. reflexivity.
Defined.

Lemma run_async_without_message_goes_straight_to_the_pipeline_witness :
  let env := Sample.env_of Sample.plugins_redacting Sample.streams (λ _, Closes 1) in
  let out :=
    run_async env Sample.runner "alice" "s1" None None default_run_config Sample.st0 in
  appends (trace_of out) = [Sample.answer] ∧
  yields (trace_of out) = [Sample.redacted Sample.fragment; Sample.answer].
Proof.
  intros env out. subst out.
  rewrite (run_async_without_message_goes_straight_to_the_pipeline env
             Sample.runner "alice" "s1" None default_run_config Sample.st0
             Sample.chat Sample.runner
             (Ctx.mk ("e-" +:+ pretty 7) (Some (root_ref Sample.root)) Sample.chat
                None None default_run_config None)
             (mkSt 0 8) 1 eq_refl eq_refl eq_refl).
  split; reflexivity.
Defined.

(** ** Live mode *)

(** The live run configuration. Without sub-agents or without a request
    queue the configuration is taken as it is. With both, the input
    transcription is always on afterwards; the modalities are the caller's
    when there are any and audio otherwise; the output transcription is on
    whenever the modalities do not include text; and a transcription the
    caller had set is kept. *)
Theorem live_defaults_for_multi_agent_sessions
    (self : Runner) (queue : option LiveRequestQueue) (run_config : RunConfig) :
  let live := live_run_config self queue run_config in
  (sub_agents (Runner.agent self) = [] ∨ queue = None → live = run_config) ∧
  (sub_agents (Runner.agent self) ≠ [] → queue ≠ None →
   input_audio_transcription live = Some tt ∧
   (∃ modalities,
      response_modalities live = Some modalities ∧ modalities ≠ [] ∧
      (∀ given, response_modalities run_config = Some given → given ≠ [] →
                modalities = given) ∧
      ((response_modalities run_config = None ∨
        response_modalities run_config = Some []) → modalities = ["AUDIO"]) ∧
      ("TEXT" ∉ modalities → output_audio_transcription live = Some tt)) ∧
   (output_audio_transcription run_config = Some tt →
    output_audio_transcription live = Some tt) ∧
   support_cfc live = support_cfc run_config ∧
   save_input_blobs_as_artifacts live = save_input_blobs_as_artifacts run_config).
Proof.
  intros live. subst live. unfold live_run_config. split.
  - intros [-> | ->]; [done|]. by destruct (sub_agents _).
  - intros Hsubs Hqueue.
    destruct (sub_agents (Runner.agent self)) as [|a subs]; [done|].
    destruct queue as [q|]; [|done].
    destruct run_config as [cfc save mods out inp]. simpl.
    destruct mods as [[|md mds]|]; simpl.
    + destruct out as [[]|], inp as [[]|]; simpl;
        (split; [done|]); (split; [|done]);
        exists ["AUDIO"]; repeat split; try done;
        by intros given [= <-].
    + destruct (bool_decide ("TEXT" ∈ md :: mds)) eqn:Htext;
        destruct out as [[]|], inp as [[]|]; simpl;
        (split; [done|]); (split; [|done]);
        exists (md :: mds); repeat split; try done;
        try (by intros given [= <-]); try (by intros [|]);
        by intros Hno; apply bool_decide_eq_true in Htext.
    + destruct out as [[]|], inp as [[]|]; simpl;
        (split; [done|]); (split; [|done]);
        exists ["AUDIO"]; repeat split; try done.
Qed.

(** Applying the live defaults to a configuration that already has them
    changes nothing. *)
Theorem live_defaults_are_idempotent
    (self : Runner) (queue : option LiveRequestQueue) (run_config : RunConfig) :
  live_run_config self queue (live_run_config self queue run_config) =
  live_run_config self queue run_config.
Proof.
  unfold live_run_config.
  destruct (sub_agents (Runner.agent self)) as [|a subs]; [done|].
  destruct queue as [q|]; [|done].
  destruct run_config as [cfc save mods out inp]. simpl.
  destruct mods as [[|md mds]|]; simpl.
  - by destruct out as [[]|], inp as [[]|].
  - destruct (bool_decide ("TEXT" ∈ md :: mds)) eqn:Htext;
      destruct out as [[]|], inp as [[]|]; simpl; by rewrite ?Htext.
  - by destruct out as [[]|], inp as [[]|].
Qed.

Lemma register_params_function n ps params :
  ∀ table : gmap string ActiveStreamingTool,
  register_params (Callable n ps) params table =
  Returned (if bool_decide (true ∈ params)
            then <[n := mkActiveStreamingTool mkLiveRequestQueue]> table
            else table).
Proof.
  induction params as [|b rest IH]; intros table; [done|].
  destruct b; cbn [register_params tool___name__]; rewrite IH.
  - rewrite (bool_decide_eq_true_2 (true ∈ true :: rest)) by left.
    destruct (bool_decide (true ∈ rest)); [by rewrite insert_insert_eq | done].
  - rewrite (bool_decide_ext (true ∈ false :: rest) (true ∈ rest)); [done|].
    rewrite elem_of_cons. split; [by intros [[=]|?] | by right].
Qed.

Lemma register_params_tool_object cls f params :
  ∀ table : gmap string ActiveStreamingTool,
  register_params (BaseTool cls f) params table =
  if bool_decide (true ∈ params) then Raised (no_attribute cls "__name__")
  else Returned table.
Proof.
  induction params as [|b rest IH]; intros table; [done|].
  destruct b; cbn [register_params tool___name__].
  - by rewrite (bool_decide_eq_true_2 (true ∈ true :: rest)) by left.
  - rewrite IH, (bool_decide_ext (true ∈ false :: rest) (true ∈ rest)); [done|].
    rewrite elem_of_cons. split; [by intros [[=]|?] | by right].
Qed.

(** How the registration ends: with an [AttributeError] exactly when a
    tool object has a [func] that takes the queue; with a table that holds
    the functions that take the queue otherwise. *)
Lemma register_tools_outcome (tool_list : list ToolUnion) :
  ∀ table : gmap string ActiveStreamingTool,
  match register_streaming_tools tool_list table with
  | Returned table' =>
      (∀ cls params, BaseTool cls (Some params) ∈ tool_list → true ∉ params) ∧
      ∀ nm, is_Some (table' !! nm) ↔
            is_Some (table !! nm) ∨
            ∃ params, Callable nm params ∈ tool_list ∧ true ∈ params
  | Raised e =>
      ∃ cls params, BaseTool cls (Some params) ∈ tool_list ∧ true ∈ params ∧
                    e = no_attribute cls "__name__"
  end.
Proof.
  induction tool_list as [|tool rest IH]; intros table.
  - simpl. split; [by intros ? ? ?%elem_of_nil|].
    intros nm. split; [by left | intros [?|(? & ?%elem_of_nil & _)]; done].
  - destruct tool as [n ps|cls [ps|]|t]; simpl.
    + rewrite register_params_function.
      set (table1 := if bool_decide (true ∈ ps)
                     then <[n := mkActiveStreamingTool mkLiveRequestQueue]> table
                     else table).
      assert (∀ nm, is_Some (table1 !! nm) ↔
                    is_Some (table !! nm) ∨ (n = nm ∧ true ∈ ps)) as Hfirst.
      { intros nm. subst table1. destruct (bool_decide (true ∈ ps)) eqn:Hq.
        - apply bool_decide_eq_true in Hq. rewrite lookup_insert_is_Some.
          destruct (decide (n = nm)) as [->|Hne]; split.
          + intros _. by right.
          + intros _. by left.
          + intros [?|[_ ?]]; [done | by left].
          + intros [?|[? _]]; [by right | done].
        - apply bool_decide_eq_false in Hq. split; [by left|].
          by intros [?|[_ ?]]. }
      specialize (IH table1).
      destruct (register_streaming_tools rest table1) as [table'|e].
      * destruct IH as [Hobj Hlook]. split.
        -- intros cls params [[=]|Hin]%elem_of_cons. by apply (Hobj cls).
        -- intros nm. rewrite Hlook, Hfirst. split.
           ++ intros [[?|[-> ?]]|(params & ? & ?)]; [by left| |].
              ** right. exists ps. split; [left | done].
              ** right. exists params. split; [by right | done].
           ++ intros [?|(params & [[= <- <-]|?]%elem_of_cons & ?)];
                [left; by left | left; by right | right; by exists params].
      * destruct IH as (cls & params & Hin & Hq & ->).
        exists cls, params. split; [by right | done].
    + rewrite register_params_tool_object.
      destruct (bool_decide (true ∈ ps)) eqn:Hq.
      * apply bool_decide_eq_true in Hq. exists cls, ps. split; [left | done].
      * apply bool_decide_eq_false in Hq. specialize (IH table).
        destruct (register_streaming_tools rest table) as [table'|e].
        -- destruct IH as [Hobj Hlook]. split.
           ++ intros cls' params [[= <- <-]|Hin]%elem_of_cons; [done|].
              by apply (Hobj cls').
           ++ intros nm. rewrite Hlook. split.
              ** intros [?|(params & ? & ?)]; [by left|].
                 right. exists params. split; [by right | done].
              ** intros [?|(params & [[=]|?]%elem_of_cons & ?)]; [by left|].
                 right. by exists params.
        -- destruct IH as (cls' & params & Hin & Hq' & ->).
           exists cls', params. split; [by right | done].
    + specialize (IH table).
      destruct (register_streaming_tools rest table) as [table'|e].
      * destruct IH as [Hobj Hlook]. split.
        -- intros cls' params [[=]|Hin]%elem_of_cons. by apply (Hobj cls').
        -- intros nm. rewrite Hlook. split.
           ++ intros [?|(params & ? & ?)]; [by left|].
              right. exists params. split; [by right | done].
           ++ intros [?|(params & [[=]|?]%elem_of_cons & ?)]; [by left|].
              right. by exists params.
      * destruct IH as (cls' & params & Hin & Hq' & ->).
        exists cls', params. split; [by right | done].
    + specialize (IH table).
      destruct (register_streaming_tools rest table) as [table'|e].
      * destruct IH as [Hobj Hlook]. split.
        -- intros cls' params [[=]|Hin]%elem_of_cons. by apply (Hobj cls').
        -- intros nm. rewrite Hlook. split.
           ++ intros [?|(params & ? & ?)]; [by left|].
              right. exists params. split; [by right | done].
           ++ intros [?|(params & [[=]|?]%elem_of_cons & ?)]; [by left|].
              right. by exists params.
      * destruct IH as (cls' & params & Hin & Hq' & ->).
        exists cls', params. split; [by right | done].
Qed.

(** For a resolved [LlmAgent] whose tools are plain functions and
    toolsets, the registration for a live run does not raise, and the
    streaming tools it registers are exactly the functions that take a
    [LiveRequestQueue]: a name is in the table if and only if one of the
    functions has that name and a parameter annotated with the queue type.
    Toolsets register nothing. *)
Theorem streaming_tools_are_the_functions_that_take_the_queue
    (a : AgentRef) (l : LlmAgent) :
  llm (node a) = Some l →
  Forall (λ tool, match tool with BaseTool _ _ => False | _ => True end) (tools l) →
  ∃ table,
    streaming_tools_of (Some a) = Returned table ∧
    ∀ nm, is_Some (table !! nm) ↔
          ∃ params, Callable nm params ∈ tools l ∧ true ∈ params.
Proof.
  intros Hl Hplain. unfold streaming_tools_of. rewrite Hl.
  pose proof (register_tools_outcome (tools l) ∅) as Hout.
  destruct (register_streaming_tools (tools l) ∅) as [table|e].
  - exists table. split; [done|]. intros nm.
    destruct Hout as [_ Hlook]. rewrite Hlook, lookup_empty. split.
    + by intros [[? [=]]|?].
    + intros ?. by right.
  - destruct Hout as (cls & params & Hin & _).
    rewrite Forall_forall in Hplain. by destruct (Hplain _ Hin).
Qed.

Lemma streaming_tools_are_the_functions_that_take_the_queue_witness :
  let agent :=
    {| node := mkAgent "voice"
                 (Sample.llm_agent false
                    [Callable "monitor_stock" [false; true]; Callable "lookup" [false];
                     BaseToolset 1]) [];
       ancestors := [] |} in
  ∃ table,
    streaming_tools_of (Some agent) = Returned table ∧
    is_Some (table !! "monitor_stock") ∧
    table !! "lookup" = None.
Proof.
  intros agent.
  destruct (streaming_tools_are_the_functions_that_take_the_queue agent
              (mkLlmAgent false
                 [Callable "monitor_stock" [false; true]; Callable "lookup" [false];
                  BaseToolset 1] "gemini-2.0-flash" NoCodeExecutor))
    as (table & Htable & Hlook).
  - reflexivity.
  - repeat constructor.
  - exists table. split; [exact Htable|]. split.
    + apply Hlook. exists [false; true]. split; [left | right; left].
    + injection Htable as <-. reflexivity.
Defined.


Section Live.
Context {P : Type} (env : Collaborators P).


End Live.


(** ** Toolset cleanup *)

Section CleanupMore.
Context {P : Type} (env : Collaborators P).

Lemma for_in_close_escapes pre toolset post (s : St P) :
  (∀ t, t ∈ pre → escapes env t = false) →
  escapes env toolset = true →
  ∃ e, wait_outcome (toolset_close env toolset) close_timeout = Raised e ∧
       for_in (pre ++ toolset :: post) (close_toolset env) s =
       (Raised e, s,
        concat (spec_close_block env <$> pre)
        ++ [Log (LogInfo ("Closing toolset: " +:+ toolset_type_name env toolset));
            WaitFor toolset close_timeout]).
Proof.
  intros Hpre Hesc.
  destruct (close_toolset_escapes env toolset s Hesc) as (e & He & _).
  exists e. split; [done|].
  induction pre as [|t pre IH]; simpl.
  - run_monad.
    destruct (close_toolset_escapes env toolset s Hesc) as (e' & He' & ->).
    run_monad. congruence.
  - run_monad. rewrite close_toolset_run by (apply Hpre; left).
    run_monad. rewrite IH by (intros t' ?; apply Hpre; by right).
    done.
Qed.

(** A close that ends with an exception outside [Exception] ends the whole
    cleanup: [close] raises that exception, the toolsets before it in the
    iteration have been attempted and logged, the failure itself is not
    logged, and the toolsets after it are never attempted. *)
Theorem escaping_close_ends_the_cleanup
    (self : Runner) (s : St P) (pre post : list nat) (toolset : nat) :
  (∀ X, set_iter env X ≡ₚ elements X) →
  set_iter env (_collect_toolset (Runner.agent self)) = pre ++ toolset :: post →
  (∀ t, t ∈ pre → escapes env t = false) →
  escapes env toolset = true →
  let out := close env self s in
  ∃ e, wait_outcome (toolset_close env toolset) close_timeout = Raised e ∧
       is_Exception e = false ∧
       result_of out = Raised e ∧
       (waits (trace_of out)).*1 = pre ++ [toolset] ∧
       trace_of out =
         concat (spec_close_block env <$> pre)
         ++ [Log (LogInfo ("Closing toolset: " +:+ toolset_type_name env toolset));
             WaitFor toolset close_timeout].
Proof.
  intros Horder Hiter Hpre Hesc out.
  destruct (for_in_close_escapes pre toolset post s Hpre Hesc) as (e & He & Hrun).
  exists e. split; [done|].
  split. { unfold escapes in Hesc. rewrite He in Hesc. by destruct (is_Exception e). }
  assert (out = (Raised e, s,
                 concat (spec_close_block env <$> pre)
                 ++ [Log (LogInfo ("Closing toolset: " +:+ toolset_type_name env toolset));
                     WaitFor toolset close_timeout])) as ->.
  { subst out. unfold close, _cleanup_toolsets.
    destruct (bool_decide (_collect_toolset (Runner.agent self) = ∅)) eqn:E.
    - apply bool_decide_eq_true in E.
      pose proof (Horder (_collect_toolset (Runner.agent self))) as Hp.
      rewrite Hiter, E, elements_empty in Hp.
      apply Permutation_nil_r in Hp. by destruct pre.
    - by rewrite Hiter. }
  unfold result_of, trace_of. cbn [fst snd].
  split; [done|]. split; [|done].
  unfold waits. rewrite omap_app. fold (waits (concat (spec_close_block env <$> pre))).
  rewrite waits_blocks, fmap_app, <- list_fmap_compose. simpl.
  f_equal. apply list_fmap_id.
Qed.

(** A runner whose agents hold no toolset closes at once: nothing is
    logged, nothing is awaited. *)
Theorem close_without_toolsets_does_nothing (self : Runner) (s : St P) :
  (∀ r t, in_tree (Runner.agent self) r → ¬ has_toolset (node r) t) →
  close env self s = (Returned tt, s, []).
Proof.
  intros Hnone. unfold close, _cleanup_toolsets.
  rewrite bool_decide_eq_true_2; [done|].
  apply set_eq. intros t. split; [|by intros ?%elem_of_empty].
  intros (r & Hr & Ht)%(collect_toolset_spec _ []). by destruct (Hnone r t).
Qed.
End CleanupMore.

Lemma escaping_close_ends_the_cleanup_witness :
  let env := Sample.env_of Sample.plugins_down Sample.streams Sample.closing in
  let out := close env (Sample.runner_of Sample.tooled) Sample.st0 in
  ∃ e, wait_outcome (toolset_close env 2) close_timeout = Raised e ∧
       is_Exception e = false ∧
       result_of out = Raised e ∧
       (waits (trace_of out)).*1 = [4] ++ [2] ∧
       trace_of out =
         concat (spec_close_block env <$> [4])
         ++ [Log (LogInfo ("Closing toolset: " +:+ toolset_type_name env 2));
             WaitFor 2 close_timeout].
Proof.
  intros env out.
  apply (escaping_close_ends_the_cleanup env (Sample.runner_of Sample.tooled)
           Sample.st0 [4] [3; 1] 2).
  - intros X. reflexivity.
  - vm_compute. reflexivity.
  - intros t Ht. apply elem_of_cons in Ht as [->|Ht]; [reflexivity|].
    by apply elem_of_nil in Ht.
  - reflexivity.
Defined.

Lemma close_without_toolsets_does_nothing_witness :
  let env := Sample.env_of Sample.plugins_down Sample.streams Sample.closing in
  close env (Sample.runner_of Sample.root) Sample.st0 = (Returned tt, Sample.st0, []).
Proof.
  intros env.
  apply (close_without_toolsets_does_nothing env (Sample.runner_of Sample.root)).
  intros r t Hr Ht.
  assert (t ∈ _collect_toolset Sample.root) as Hin
    by (apply (collect_toolset_spec _ []); by exists r).
  assert (elements (_collect_toolset Sample.root) = []) as Hel
    by (vm_compute; reflexivity).
  apply elem_of_elements in Hin. rewrite Hel in Hin. by apply elem_of_nil in Hin.
Defined.

(** ** The blocking bridge *)

Section BridgeMore.
Context {P : Type} (env : Collaborators P).

(** A session that does not exist goes unnoticed by the caller of the
    blocking [run]: the [ValueError] of [run_async] stays in the worker
    thread, and the caller's loop ends normally without a single event. *)
Theorem blocking_run_hides_a_missing_session
    (self : Runner) (user_id session_id : string) (new_message : option Content)
    (run_config : RunConfig) (s : St P) (n : nat) (b : Bridge) :
  lookup_session (Runner.session_service self) (Runner.app_name self)
    user_id session_id = None →
  nsteps bridge_step n (run env self user_id session_id new_message run_config s) b →
  reyielded b = [] ∧
  (consumer b = Finished →
     worker b = Exited (Some (ValueError ("Session not found: " +:+ session_id)))) ∧
  ∃ b', rtc bridge_step b b' ∧ consumer b' = Finished ∧ reyielded b' = [].
Proof.
  intros Hnone Hn.
  assert (run env self user_id session_id new_message run_config s =
          bridge_start [] (Some (ValueError ("Session not found: " +:+ session_id))))
    as Hstart.
  { unfold run, run_async_outcome, run_async, get_session, emit, raise.
    run_monad. rewrite Hnone. by run_monad. }
  rewrite Hstart in Hn.
  pose proof (bridge_inv_nsteps _ _ _ _ _ (bridge_inv_start _ _) Hn) as Hinv.
  assert (∀ b0, bridge_inv [] (Some (ValueError ("Session not found: " +:+ session_id))) b0 →
                reyielded b0 = []) as Hempty.
  { intros b0 (Hq & _ & _). unfold taken in Hq. rewrite <- app_assoc in Hq.
    apply (sentinel_prefix _ [] _ [None]) in Hq. by apply prefix_nil_inv in Hq. }
  split; [by apply Hempty|].
  split; [by destruct Hinv as (_ & _ & Hf)|].
  destruct (bridge_finishes _ _ _ b (le_n _) Hinv) as (b' & Hrtc & Hfin).
  exists b'. split; [done|]. split; [done|]. apply Hempty.
  apply rtc_nsteps_1 in Hrtc as [k Hk]. by eapply bridge_inv_nsteps.
Qed.

(** The worker puts the sentinel twice and the consumer stops at the first
    one: when [run] has returned, the queue holds exactly the one sentinel
    that was left over, and no event. *)
Theorem finished_run_leaves_one_sentinel
    (self : Runner) (user_id session_id : string) (new_message : option Content)
    (run_config : RunConfig) (s : St P) (n : nat) (b : Bridge) :
  nsteps bridge_step n (run env self user_id session_id new_message run_config s) b →
  consumer b = Finished →
  event_queue b = [None].
Proof.
  intros Hn Hfin. unfold run in Hn.
  destruct (run_async_outcome env self user_id session_id new_message run_config s)
    as [events ending].
  pose proof (bridge_inv_nsteps _ _ _ _ _ (bridge_inv_start _ _) Hn) as (Hq & _ & Hw).
  unfold taken in Hq. rewrite Hfin, (Hw Hfin) in Hq. simpl in Hq.
  rewrite app_nil_r, <- app_assoc in Hq.
  pose proof (sentinel_cut _ _ _ _ Hq) as Hcut. rewrite Hcut in Hq.
  apply app_inv_head in Hq. by injection Hq.
Qed.
End BridgeMore.

Lemma blocking_run_hides_a_missing_session_witness :
  let env := Sample.env_of Sample.plugins_redacting Sample.streams (λ _, Closes 1) in
  let b :=
    schedule [false; true; true; false; true; false; false]
      (run env Sample.runner "alice" "nowhere" (Some Sample.next_message)
         default_run_config Sample.st0) in
  consumer b = Finished ∧ reyielded b = [] ∧
  worker b = Exited (Some (ValueError "Session not found: nowhere")).
Proof.
  intros env b.
  destruct (schedule_steps [false; true; true; false; true; false; false]
              (run env Sample.runner "alice" "nowhere" (Some Sample.next_message)
                 default_run_config Sample.st0)) as [n Hn].
  destruct (blocking_run_hides_a_missing_session env Sample.runner "alice" "nowhere"
              (Some Sample.next_message) default_run_config Sample.st0 n _ eq_refl Hn)
    as (Hy & Hw & _).
  assert (consumer b = Finished) as Hc by reflexivity.
  split; [exact Hc|]. split; [exact Hy | exact (Hw Hc)].
Defined.

Lemma finished_run_leaves_one_sentinel_witness :
  let env := Sample.env_of Sample.plugins_redacting Sample.streams (λ _, Closes 1) in
  let b :=
    schedule [true; true; true; true; true; false; false; false; false]
      (run env Sample.runner "alice" "s1" (Some Sample.next_message)
         default_run_config Sample.st0) in
  reyielded b = [Sample.redacted Sample.fragment; Sample.answer] ∧
  event_queue b = [None].
Proof.
  intros env b.
  destruct (schedule_steps [true; true; true; true; true; false; false; false; false]
              (run env Sample.runner "alice" "s1" (Some Sample.next_message)
                 default_run_config Sample.st0)) as [n Hn].
  split; [reflexivity|].
  apply (finished_run_leaves_one_sentinel env Sample.runner "alice" "s1"
           (Some Sample.next_message) default_run_config Sample.st0 n _ Hn).
  reflexivity.
Defined.
